(** * The pipeline orchestrator of the CADD assistant (src/App.tsx)

    A shallow embedding of the React component [App]: its six state hooks,
    the click handler [handleStepClick], the asynchronous handler
    [handleStepExecution] with its inner [getTopTriageCandidate], and the
    table [PIPELINE_STEPS] of constants.tsx.

    What the embedding takes from the JavaScript engine rather than from the
    repository is made explicit:
    - payloads are typed [any] in the source, so they are JavaScript values
      ([value]); arrays are references into a store of mutable arrays,
      because [Array.prototype.sort] sorts in place and the handler relies
      on copying ([[...xs]]) before it sorts;
    - numbers are IEEE binary64 floats (Rocq's primitive floats);
    - the text of an engine [TypeError] and the number coercion of strings
      and objects are parameters of the development;
    - the Analysis Service (services/geminiService) is a parameter. *)

From Stdlib Require Import Floats ZArith String Ascii List Permutation Sorted Bool Lia.
From stdpp Require Import base list functions.

Set Warnings "-inexact-float,-register-all".
Open Scope string_scope.
Open Scope list_scope.

(** ** types.ts *)

Inductive StepId : Type :=
| data_assembly
| pocket_detection
| generative_design
| rapid_triage
| docking_rescoring
| md_simulation
| admet_prediction
| active_learning
| synthesis_planning
| final_report.

#[global] Instance StepId_eq_dec : EqDecision StepId.
Proof. solve_decision. Defined.

(** [step.id === activeStep] *)
Definition StepId_eqb (a b : StepId) : bool := bool_decide (a = b).

(** React.ElementType: the ten icon components of constants.tsx. *)
Inductive ElementType : Type :=
| DataIcon | PocketIcon | GenerateIcon | TriageIcon | DockingIcon
| MdIcon | AdmetIcon | LearningIcon | SynthesisIcon | ReportIcon.

Module PipelineStep.
Record t : Type := mk {
  id : StepId;
  name : string;
  description : string;
  Icon : ElementType;
}.
End PipelineStep.

(** The [type] tag of a [StepResult]. *)
Inductive ResultType : Type := json | text | image_and_text.

(** ** JavaScript values

    [data: any].  Objects are never written to by the orchestrator and are
    held by value, as association lists of own properties (the first binding
    of a key is the property).  Arrays are held by reference. *)

Abbreviation loc := nat.

Inductive value : Type :=
| VUndefined
| VNull
| VBool (b : bool)
| VNum (n : float)
| VStr (s : string)
| VArr (a : loc)
| VObj (fields : list (string * value)).

(** The store of arrays: a location is an index; a new array is appended. *)
Abbreviation store := (list (list value)).

Record StepResult : Type := mkStepResult {
  type : ResultType;
  data : value;
  explanation : option string;
}.

(** [Record<StepId, StepResult | null>]: every key is always present. *)
Abbreviation Results := (StepId -> option StepResult).

(** ** constants.tsx *)

Definition PIPELINE_STEPS : list PipelineStep.t :=
  [ PipelineStep.mk data_assembly "Data Assembly & Featurization"
      "Standardize and featurize input molecules." DataIcon;
    PipelineStep.mk pocket_detection "Pocket Detection"
      "Locate binding pockets on the protein target." PocketIcon;
    PipelineStep.mk generative_design "Generative Design"
      "Create novel candidate molecules." GenerateIcon;
    PipelineStep.mk rapid_triage "Rapid Triage"
      "Quickly filter candidates with learned models." TriageIcon;
    PipelineStep.mk docking_rescoring "Docking & AI Rescoring"
      "Perform physics-based docking and score with AI." DockingIcon;
    PipelineStep.mk md_simulation "MD Sanity Check"
      "Check binding stability with molecular dynamics." MdIcon;
    PipelineStep.mk admet_prediction "ADMET Prediction"
      "Predict absorption, distribution, metabolism, excretion, and toxicity." AdmetIcon;
    PipelineStep.mk active_learning "Active Learning Loop"
      "Intelligently select the next compounds to test." LearningIcon;
    PipelineStep.mk synthesis_planning "Synthesis Planning"
      "Check synthetic accessibility of top candidates." SynthesisIcon;
    PipelineStep.mk final_report "Final Report"
      "Generate a summary of the entire pipeline." ReportIcon ].

(** ** Completions and the store monad

    A JavaScript computation of the handler either completes normally or
    throws; it reads and writes the store of arrays. *)

Inductive exn : Type :=
| Error (message : string)             (* throw new Error(message) *)
| TypeError (v : value) (k : string)   (* the engine: property k read on null or undefined *)
| Rejection (message : option string). (* the collaborator's promise rejected *)

Inductive completion (A : Type) : Type :=
| Normal (a : A)
| Throw (e : exn).
Arguments Normal {A} a.
Arguments Throw {A} e.

Definition M (A : Type) : Type := store -> completion A * store.

Definition ret {A} (a : A) : M A := fun st => (Normal a, st).

Definition throw {A} (e : exn) : M A := fun st => (Throw e, st).

Definition bind {A B} (m : M A) (k : A -> M B) : M B :=
  fun st =>
    match m st with
    | (Normal a, st') => k a st'
    | (Throw e, st') => (Throw e, st')
    end.

Definition lift {A} (c : completion A) : M A := fun st => (c, st).

Notation "x <- m ;; k" := (bind m (fun x => k))
  (at level 100, m at next level, right associativity).

(** ** Operations on values *)

(** ToBoolean. *)
Definition truthy (v : value) : bool :=
  match v with
  | VUndefined | VNull => false
  | VBool b => b
  | VNum n => negb (PrimFloat.eqb n 0 || PrimFloat.is_nan n)
  | VStr s => negb (String.eqb s EmptyString)
  | VArr _ | VObj _ => true
  end.

(** The own property [k] of an object literal, [undefined] when absent. *)
Fixpoint own (k : string) (fields : list (string * value)) : value :=
  match fields with
  | [] => VUndefined
  | (k', v) :: fields' => if String.eqb k k' then v else own k fields'
  end.

(** [v.k] for the property names the handler reads ([generated_smiles],
    [triage_results], [pIC50], [smiles]); none of them is a property of a
    primitive wrapper or of [Array.prototype]. *)
Definition get (v : value) (k : string) : completion value :=
  match v with
  | VUndefined | VNull => Throw (TypeError v k)
  | VObj fields => Normal (own k fields)
  | VBool _ | VNum _ | VStr _ | VArr _ => Normal VUndefined
  end.

Definition is_undefined (v : value) : bool :=
  match v with VUndefined => true | _ => false end.

(** [t === 'json'] *)
Definition is_json (t : ResultType) : bool :=
  match t with json => true | _ => false end.

(** ** Operations on arrays *)

Definition contents (st : store) (a : loc) : list value := default [] (st !! a).

Definition read (a : loc) : M (list value) := fun st => (Normal (contents st a), st).

Definition alloc (l : list value) : M loc := fun st => (Normal (length st), st ++ [l]).

(** [[...xs]]: a new array with the elements of [xs]. *)
Definition spread (a : loc) : M loc := l <- read a ;; alloc l.

(** [xs.slice(0, n)] *)
Definition slice0 (a : loc) (n : nat) : M loc := l <- read a ;; alloc (take n l).

(** [xs[0]] *)
Definition index0 (a : loc) : M value :=
  l <- read a ;; ret (match l with [] => VUndefined | x :: _ => x end).

Fixpoint mapM (f : value -> completion value) (l : list value) : completion (list value) :=
  match l with
  | [] => Normal []
  | x :: l' =>
    match f x with
    | Throw e => Throw e
    | Normal y =>
      match mapM f l' with
      | Throw e => Throw e
      | Normal ys => Normal (y :: ys)
      end
    end
  end.

(** [xs.map(f)]: a new array; the first callback that throws ends it. *)
Definition map_array (a : loc) (f : value -> completion value) : M loc :=
  l <- read a ;; ys <- lift (mapM f l) ;; alloc ys.

(** ** The component's state (the six [useState] hooks of [App])

    [heap] is not a hook: it is the store the array references held in
    [results] point into. *)

Record State : Type := mkState {
  activeStep : StepId;
  moleculeSmiles : string;
  receptorPdbId : string;
  results : Results;
  isLoading : bool;
  error : option string;
  heap : store;
}.

Definition setActiveStep (x : StepId) (s : State) : State :=
  mkState x (moleculeSmiles s) (receptorPdbId s) (results s) (isLoading s) (error s) (heap s).

Definition setMoleculeSmiles (x : string) (s : State) : State :=
  mkState (activeStep s) x (receptorPdbId s) (results s) (isLoading s) (error s) (heap s).

Definition setReceptorPdbId (x : string) (s : State) : State :=
  mkState (activeStep s) (moleculeSmiles s) x (results s) (isLoading s) (error s) (heap s).

(** [setResults(prev => f(prev))] *)
Definition setResults (f : Results -> Results) (s : State) : State :=
  mkState (activeStep s) (moleculeSmiles s) (receptorPdbId s) (f (results s)) (isLoading s)
    (error s) (heap s).

Definition setIsLoading (x : bool) (s : State) : State :=
  mkState (activeStep s) (moleculeSmiles s) (receptorPdbId s) (results s) x (error s) (heap s).

Definition setError (x : option string) (s : State) : State :=
  mkState (activeStep s) (moleculeSmiles s) (receptorPdbId s) (results s) (isLoading s) x (heap s).

Definition setHeap (x : store) (s : State) : State :=
  mkState (activeStep s) (moleculeSmiles s) (receptorPdbId s) (results s) (isLoading s)
    (error s) x.

(** The state [App] is mounted with. *)
Definition initial : State :=
  {| activeStep := data_assembly;
     moleculeSmiles := "CCO";
     receptorPdbId := "4HER";
     results := fun _ => None;
     isLoading := false;
     error := None;
     heap := [] |}.

(** ** The Analysis Service (services/geminiService), as the handler uses it

    One constructor per imported function, with the arguments of the call. *)

Inductive Request : Type :=
| analyzeDataAssembly (smiles : string)
| detectPocket (smiles : string)
| generateCandidates (smiles : string)
| triageCandidates (generated_smiles : value)
| runDocking (topSmiles : value) (receptor : string)
| runMDSimulation (topMolecule : value)
| predictADMET (topMolecule : value)
| suggestNextSteps (topMolecule : value)
| planSynthesis (topMolecule : value)
| generateFinalReport (smiles : string) (finalCandidateSmiles : value) (all : Results).

(** How an awaited call settles.  The service reads its arguments and
    writes to none of the arrays it is passed; the arrays a response brings
    ([fresh]) are appended to the store, and the references in [response]
    are locations of the store so extended.  A rejection is an error object
    (the service rejects with a message), whose [message] may be absent. *)
Inductive Outcome : Type :=
| Resolved (response : StepResult) (fresh : list (list value))
| Rejected (message : option string).

(** [findIndex]: the first position whose element satisfies [p], or -1. *)
Fixpoint findIndex_from {A} (p : A -> bool) (l : list A) (i : Z) : Z :=
  match l with
  | [] => (-1)%Z
  | x :: l' => if p x then i else findIndex_from p l' (i + 1)%Z
  end.

Definition findIndex {A} (p : A -> bool) (l : list A) : Z := findIndex_from p l 0%Z.

(** The double quote character, for the two messages that quote a step. *)
Definition dquote : string := String "034"%char EmptyString.

(** 'Generated molecules not found. Please complete the "Generative Design" step first.' *)
Definition generated_not_found : string :=
  String.append "Generated molecules not found. Please complete the "
    (String.append dquote (String.append "Generative Design"
       (String.append dquote " step first."))).

(** 'Triage results not found. Please complete the "Rapid Triage" step first.' *)
Definition triage_not_found : string :=
  String.append "Triage results not found. Please complete the "
    (String.append dquote (String.append "Rapid Triage"
       (String.append dquote " step first."))).

Definition unexpected_error : string := "An unexpected error occurred.".

(** ** Array.prototype.sort

    Undefined elements go last and are never passed to the comparator.  The
    rest is sorted stably: an element moves behind another one only when
    the comparator's result for the pair is positive (NaN counts as 0).  For
    a consistent comparator every stable sort gives this order; for an
    inconsistent one ECMAScript leaves the order to the engine, and the
    order computed here is one of the allowed ones. *)

Section Sort.

Variable comparefn : value -> value -> completion float.

Fixpoint insert (x : value) (sorted : list value) : completion (list value) :=
  match sorted with
  | [] => Normal [x]
  | y :: sorted' =>
    match comparefn x y with
    | Throw e => Throw e
    | Normal v =>
      if PrimFloat.ltb 0 v then
        match insert x sorted' with
        | Throw e => Throw e
        | Normal r => Normal (y :: r)
        end
      else Normal (x :: sorted)
    end
  end.

Fixpoint insertion_sort (l : list value) : completion (list value) :=
  match l with
  | [] => Normal []
  | x :: l' =>
    match insertion_sort l' with
    | Throw e => Throw e
    | Normal sorted => insert x sorted
    end
  end.

End Sort.

(** [xs.sort(comparefn)]: sorts the array at [a] in place and returns it.
    When the comparator throws, the array (which the engine may have left
    partly sorted) is kept as it was. *)
Definition sort (a : loc) (comparefn : store -> value -> value -> completion float) : M loc :=
  fun st =>
    let l := contents st a in
    match insertion_sort (comparefn st) (List.filter (fun v => negb (is_undefined v)) l) with
    | Throw e => (Throw e, st)
    | Normal sorted => (Normal a, <[a := sorted ++ List.filter is_undefined l]> st)
    end.

(** ** The handler *)

(** What the suspended [handleStepExecution] keeps across its [await]: the
    call it waits for and the two variables of its closure that the
    continuation reads. *)
Record Pending : Type := mkPending {
  request : Request;
  closure_activeStep : StepId;
  currentStepIndex : Z;
}.

(** The engine: the message of the [TypeError] for reading property [k] of
    [v], and ToNumber on strings, arrays and objects. *)
Class Engine : Type := {
  TypeError_message : value -> string -> string;
  ToNumber_coerce : store -> value -> float;
}.

(** The Analysis Service: how the call [req], issued with the store [st],
    settles. *)
Class AnalysisService : Type := {
  service : Request -> store -> Outcome;
}.

Section Orchestrator.

Context {engine : Engine} {analysis : AnalysisService}.

Definition ToNumber (st : store) (v : value) : float :=
  match v with
  | VUndefined => PrimFloat.nan
  | VNull => 0%float
  | VBool true => 1%float
  | VBool false => 0%float
  | VNum n => n
  | VStr _ | VArr _ | VObj _ => ToNumber_coerce st v
  end.

(** [(a, b) => b.pIC50 - a.pIC50] *)
Definition by_pIC50 (st : store) (a b : value) : completion float :=
  match get b "pIC50" with
  | Throw e => Throw e
  | Normal pb =>
    match get a "pIC50" with
    | Throw e => Throw e
    | Normal pa => Normal (PrimFloat.sub (ToNumber st pb) (ToNumber st pa))
    end
  end.

(** [e.message] *)
Definition message_of (e : exn) : option string :=
  match e with
  | Error message => Some message
  | TypeError v k => Some (TypeError_message v k)
  | Rejection message => message
  end.

(** [e.message || 'An unexpected error occurred.'] *)
Definition error_text (e : exn) : string :=
  match message_of e with
  | Some m => if String.eqb m EmptyString then unexpected_error else m
  | None => unexpected_error
  end.

(** The condition of lines 50 and 82:
    [r?.type === 'json' && r.data.triage_results &&
     Array.isArray(r.data.triage_results) && r.data.triage_results.length > 0];
    when it holds, the array. *)
Definition triage_results_of (r : option StepResult) : M (option loc) :=
  match r with
  | None => ret None
  | Some r =>
    if is_json (type r) then
      tr <- lift (get (data r) "triage_results") ;;
      if truthy tr then
        match tr with
        | VArr a =>
          l <- read a ;;
          if (0 <? length l)%nat then ret (Some a) else ret None
        | _ => ret None
        end
      else ret None
    else ret None
  end.

(** Lines 48-56. *)
Definition getTopTriageCandidate (results : Results) : M value :=
  found <- triage_results_of (results rapid_triage) ;;
  match found with
  | Some triage_results =>
    copy <- spread triage_results ;;
    sortedCandidates <- sort copy by_pIC50 ;;
    first <- index0 sortedCandidates ;;
    lift (get first "smiles")
  | None => ret VNull
  end.

(** The five cases that differ only in the function called (lines 92-127). *)
Definition with_top_candidate (results : Results) (call : value -> Request) : M Request :=
  topMolecule <- getTopTriageCandidate results ;;
  if truthy topMolecule then ret (call topMolecule)
  else throw (Error triage_not_found).

(** The [switch] of lines 62-137, up to the call it awaits. *)
Definition resolve (s : State) : M Request :=
  match activeStep s with
  | data_assembly => ret (analyzeDataAssembly (moleculeSmiles s))
  | pocket_detection => ret (detectPocket (moleculeSmiles s))
  | generative_design => ret (generateCandidates (moleculeSmiles s))
  | rapid_triage =>
    match results s generative_design with
    | None => throw (Error generated_not_found)
    | Some generatedSmilesResult =>
      if is_json (type generatedSmilesResult) then
        generated_smiles <- lift (get (data generatedSmilesResult) "generated_smiles") ;;
        if truthy generated_smiles then ret (triageCandidates generated_smiles)
        else throw (Error generated_not_found)
      else throw (Error generated_not_found)
    end
  | docking_rescoring =>
    found <- triage_results_of (results s rapid_triage) ;;
    match found with
    | Some triage_results =>
      copy <- spread triage_results ;;
      sorted <- sort copy by_pIC50 ;;
      top3 <- slice0 sorted 3 ;;
      topSmiles <- map_array top3 (fun item => get item "smiles") ;;
      ret (runDocking (VArr topSmiles) (receptorPdbId s))
    | None => throw (Error triage_not_found)
    end
  | md_simulation => with_top_candidate (results s) runMDSimulation
  | admet_prediction => with_top_candidate (results s) predictADMET
  | active_learning => with_top_candidate (results s) suggestNextSteps
  | synthesis_planning => with_top_candidate (results s) planSynthesis
  | final_report =>
    with_top_candidate (results s)
      (fun finalCandidateSmiles =>
         generateFinalReport (moleculeSmiles s) finalCandidateSmiles (results s))
  end.

(** Lines 39-42. *)
Definition handleStepClick (id : StepId) (s : State) : State :=
  setError None (setActiveStep id s).

(** [handleStepExecution] from its entry to its [await] (lines 45-137): the
    state it leaves, and the suspended call; [None] when it threw before
    calling, in which case [catch] and [finally] have run.  The variables of
    the closure ([activeStep], [moleculeSmiles], [results], [receptorPdbId])
    are those of the render the handler was created in, here the fields of
    [s]. *)
Definition begin (s : State) : State * option Pending :=
  let s1 := setError None (setIsLoading true s) in
  let index :=
    findIndex (fun step => StepId_eqb (PipelineStep.id step) (activeStep s)) PIPELINE_STEPS in
  match resolve s (heap s) with
  | (Normal req, h) => (setHeap h s1, Some (mkPending req (activeStep s) index))
  | (Throw e, h) =>
    (setIsLoading false (setError (Some (error_text e)) (setHeap h s1)), None)
  end.

(** [handleStepExecution] after its [await] (lines 139-149), run in the
    state [s] of the moment the call settles.  A response is an object, so
    the test [if (response)] passes; [prev] is the [results] of [s], while
    the key and the index are the closure's. *)
Definition settle (p : Pending) (o : Outcome) (s : State) : State :=
  match o with
  | Resolved response fresh =>
    let s1 :=
      setResults (fun prev => <[closure_activeStep p := Some response]> prev)
        (setHeap (heap s ++ fresh) s) in
    if (currentStepIndex p <? Z.of_nat (length PIPELINE_STEPS) - 1)%Z then
      match PIPELINE_STEPS !! Z.to_nat (currentStepIndex p + 1) with
      | Some next => setIsLoading false (setActiveStep (PipelineStep.id next) s1)
      | None =>
        setIsLoading false (setError (Some (error_text (TypeError VUndefined "id"))) s1)
      end
    else setIsLoading false s1
  | Rejected message =>
    setIsLoading false (setError (Some (error_text (Rejection message))) s)
  end.

(** One uninterrupted run of [handleStepExecution]: the final state and the
    calls made to the Analysis Service. *)
Definition handleStepExecution (s : State) : State * list Request :=
  match begin s with
  | (s1, None) => (s1, [])
  | (s1, Some p) => (settle p (service (request p) (heap s1)) s1, [request p])
  end.

(** The user's operations on the component. *)
Inductive Action : Type :=
| onStepClick (id : StepId)
| onSmilesChange (v : string)
| onReceptorChange (v : string)
| onExecute.

Definition dispatch (a : Action) (s : State) : State :=
  match a with
  | onStepClick id => handleStepClick id s
  | onSmilesChange v => setMoleculeSmiles v s
  | onReceptorChange v => setReceptorPdbId v s
  | onExecute => fst (handleStepExecution s)
  end.

End Orchestrator.


(** ** Vocabulary of the claims *)

(** Every array of [st] is in [st'], at its location and with its contents. *)
Definition extends (st st' : store) : Prop := exists ext, st' = st ++ ext.

(** A computation that only adds arrays to the store. *)
Definition allocates_only {A} (m : M A) : Prop := forall st, extends st (snd (m st)).

(** [v.k], [undefined] when the read throws. *)
Definition field (k : string) (v : value) : value :=
  match get v k with
  | Normal x => x
  | Throw _ => VUndefined
  end.

(** A triage entry as the service's contract has it: an object whose
    [pIC50] is a number. *)
Definition entry (x : value) : bool :=
  match x with
  | VObj fields => match own "pIC50" fields with VNum _ => true | _ => false end
  | _ => false
  end.

Definition pIC50_of (x : value) : float :=
  match field "pIC50" x with
  | VNum n => n
  | _ => PrimFloat.nan
  end.

(** The comparator's test that [x] goes behind [y]: [y.pIC50 - x.pIC50 > 0]. *)
Definition behind (x y : value) : bool :=
  PrimFloat.ltb 0 (PrimFloat.sub (pIC50_of y) (pIC50_of x)).

(** Neither goes behind the other: equal scores. *)
Definition tie (x y : value) : bool := negb (behind x y) && negb (behind y x).

(** ECMAScript's consistency of a comparator over the elements of [l], for
    [behind]: it is asymmetric and its complement is transitive.  By IEEE 754
    the sign of a difference of two doubles is the order of its operands, so
    scores that are not NaN compare consistently; that is a fact of float
    subtraction, not of this program, and is taken here as a test on the
    list. *)
Definition consistent (l : list value) : bool :=
  forallb (fun x =>
    forallb (fun y =>
      implb (behind x y) (negb (behind y x)) &&
      forallb (fun z =>
        implb (negb (behind x y) && negb (behind y z)) (negb (behind x z))) l) l) l.

(** No element is followed by one with a strictly greater score. *)
Definition descending (l : list value) : Prop :=
  forall i j x y, i < j -> l !! i = Some x -> l !! j = Some y -> behind x y = false.

(** Elements with equal scores are in the order they have in [l]. *)
Definition stable (l sorted : list value) : Prop :=
  forall c, In c l -> List.filter (tie c) sorted = List.filter (tie c) l.

(** The comparator [comparefn] puts [x] behind [y]. *)
Definition goes_behind (comparefn : value -> value -> completion float) (x y : value) : bool :=
  match comparefn x y with
  | Normal v => PrimFloat.ltb 0 v
  | Throw _ => false
  end.

Definition equal_rank (comparefn : value -> value -> completion float) (x y : value) : bool :=
  negb (goes_behind comparefn x y) && negb (goes_behind comparefn y x).

(** No element of [l] has to go behind a later one. *)
Definition in_order (comparefn : value -> value -> completion float) (l : list value) : Prop :=
  StronglySorted (fun x y => goes_behind comparefn x y = false) l.

(** The dependency table of the specification: the slot a step reads. *)
Definition dependency (k : StepId) : option StepId :=
  match k with
  | data_assembly | pocket_detection | generative_design => None
  | rapid_triage => Some generative_design
  | _ => Some rapid_triage
  end.

(** The message of the failure when that slot is empty. *)
Definition not_found (k : StepId) : string :=
  match k with
  | rapid_triage => generated_not_found
  | _ => triage_not_found
  end.

(** The fixed order of the steps. *)
Definition step_order : list StepId := List.map PipelineStep.id PIPELINE_STEPS.

(** [k'] is the step after [k]. *)
Definition next_step (k k' : StepId) : Prop :=
  exists i, step_order !! i = Some k /\ step_order !! S i = Some k'.

(** The steps that select their input from the triage results. *)
Definition downstream_of_triage (k : StepId) : bool :=
  match dependency k with
  | Some rapid_triage => true
  | _ => false
  end.

(** ** Example states, engine and services *)

Definition candidate (smiles : string) (pIC50 : float) : value :=
  VObj [("smiles", VStr smiles); ("pIC50", VNum pIC50)].

(** The triage results of the specification's example. *)
Definition example_triage : list value :=
  [candidate "A" 5.0%float; candidate "B" 7.2%float; candidate "C" 7.2%float].

(** A state in which [rapid_triage] has stored a result whose
    [triage_results] is the array [l]; the active step is [k]. *)
Definition triaged (k : StepId) (l : list value) : State :=
  {| activeStep := k;
     moleculeSmiles := "CCO";
     receptorPdbId := "4HER";
     results :=
       <[rapid_triage := Some (mkStepResult json (VObj [("triage_results", VArr 0)]) None)]>
         (results initial);
     isLoading := false;
     error := None;
     heap := [l] |}.

(** A state in which [generative_design] has stored a result whose
    [generated_smiles] is the array [l]; the active step is [rapid_triage]. *)
Definition generated (l : list value) : State :=
  {| activeStep := rapid_triage;
     moleculeSmiles := "CCO";
     receptorPdbId := "4HER";
     results :=
       <[generative_design := Some (mkStepResult json (VObj [("generated_smiles", VArr 0)]) None)]>
         (results initial);
     isLoading := false;
     error := None;
     heap := [l] |}.

Definition example_engine : Engine :=
  {| TypeError_message := fun _ k => String.append "Cannot read properties (reading " k;
     ToNumber_coerce := fun _ _ => PrimFloat.nan |}.

Definition text_response (s : string) : StepResult := mkStepResult text (VStr s) None.

(** A service that resolves every call with [r], and one that rejects every
    call with the message [m]. *)
Definition resolving (r : StepResult) : AnalysisService :=
  {| service := fun _ _ => Resolved r [] |}.

Definition rejecting (m : option string) : AnalysisService :=
  {| service := fun _ _ => Rejected m |}.

(** The initial state with the slot of the first step already filled. *)
Definition rerun : State :=
  setResults (fun prev => <[data_assembly := Some (text_response "old")]> prev) initial.

(** Triage results with two entries only. *)
Definition two_entries : list value := [candidate "A" 5.0%float; candidate "B" 7.2%float].

(** The state while the first call made from [initial] is in flight. *)
Definition in_flight : State := fst (begin (engine := example_engine) initial).

(** ** What [App] renders (lines 152-188)

    The props passed to [PipelineStepper] and [StepCard]; the callbacks
    among them are the handlers above. *)

(** [results[k] !== null] *)
Definition is_filled (r : option StepResult) : bool :=
  match r with
  | Some _ => true
  | None => false
  end.

(** [Object.keys(results)]: the keys of the literal of lines 24-35 in the
    order written there; [{...prev, [activeStep]: response}] writes to an
    existing key and keeps the order. *)
Definition result_keys : list StepId :=
  [ data_assembly; pocket_detection; generative_design; rapid_triage; docking_rescoring;
    md_simulation; admet_prediction; active_learning; synthesis_planning; final_report ].

(** Line 163. *)
Definition completedSteps (s : State) : list StepId :=
  List.filter (fun k => is_filled (results s k)) result_keys.

(** Line 152. *)
Definition currentStepInfo (s : State) : option PipelineStep.t :=
  List.find (fun step => StepId_eqb (PipelineStep.id step) (activeStep s)) PIPELINE_STEPS.

Module PipelineStepper.
Record props : Type := mk {
  steps : list PipelineStep.t;
  activeStepId : StepId;
  completedSteps : list StepId;
}.
End PipelineStepper.

Module StepCard.
Record props : Type := mk {
  step : PipelineStep.t;
  result : option StepResult;
  isLoading : bool;
  error : option string;
  isSmilesInputVisible : bool;
  smilesValue : string;
  isReceptorInputVisible : bool;
  receptorValue : string;
  isCompleted : bool;
}.
End StepCard.

(** Lines 160-165. *)
Definition stepper (s : State) : PipelineStepper.props :=
  PipelineStepper.mk PIPELINE_STEPS (activeStep s) (completedSteps s).

(** Lines 168-183: the card, rendered when [currentStepInfo] is defined. *)
Definition card (s : State) : option StepCard.props :=
  match currentStepInfo s with
  | Some info =>
    Some (StepCard.mk info
            (results s (activeStep s))
            (isLoading s)
            (error s)
            (StepId_eqb (activeStep s) data_assembly)
            (moleculeSmiles s)
            (StepId_eqb (activeStep s) docking_rescoring)
            (receptorPdbId s)
            (is_filled (results s (activeStep s))))
  | None => None
  end.

(** ** The component over time

    Between two renders one thing happens: the user clicks a step, edits a
    field or starts the handler, or a call that is awaited settles.  The
    calls in flight are kept with the closures that wait for them. *)

Inductive Event : Type :=
| clicked (id : StepId)
| smilesEdited (v : string)
| receptorEdited (v : string)
| executed
| settled (n : nat) (o : Outcome).

Record Session : Type := mkSession {
  current : State;
  awaiting : list Pending;
}.

Definition mounted : Session := mkSession initial [].

Section Sessions.

Context {engine : Engine} {analysis : AnalysisService}.

Definition fire (e : Event) (x : Session) : Session :=
  match e with
  | clicked id => mkSession (handleStepClick id (current x)) (awaiting x)
  | smilesEdited v => mkSession (setMoleculeSmiles v (current x)) (awaiting x)
  | receptorEdited v => mkSession (setReceptorPdbId v (current x)) (awaiting x)
  | executed =>
    match begin (current x) with
    | (s1, Some p) => mkSession s1 (awaiting x ++ [p])
    | (s1, None) => mkSession s1 (awaiting x)
    end
  | settled n o =>
    match awaiting x !! n with
    | Some p => mkSession (settle p o (current x)) (delete n (awaiting x))
    | None => x
    end
  end.

Definition play (events : list Event) (x : Session) : Session :=
  fold_left (fun x e => fire e x) events x.

(** A run of the handler that makes no call and ends with the message [m],
    with [results] and [activeStep] as they were. *)
Definition fails_with (s : State) (m : string) : Prop :=
  snd (handleStepExecution s) = [] /\
  error (fst (handleStepExecution s)) = Some m /\
  results (fst (handleStepExecution s)) = results s /\
  activeStep (fst (handleStepExecution s)) = activeStep s /\
  isLoading (fst (handleStepExecution s)) = false.

End Sessions.

(** The candidate a call for a single molecule carries. *)
Definition top_argument (req : Request) : option value :=
  match req with
  | runMDSimulation v | predictADMET v | suggestNextSteps v | planSynthesis v
  | generateFinalReport _ v _ => Some v
  | _ => None
  end.

(** The five steps that call with the top candidate alone. *)
Definition single_candidate (k : StepId) : bool :=
  match k with
  | md_simulation | admet_prediction | active_learning | synthesis_planning
  | final_report => true
  | _ => false
  end.

(** The property a dependent step reads from the result it depends on. *)
Definition dependency_field (k : StepId) : string :=
  match k with
  | rapid_triage => "generated_smiles"
  | _ => "triage_results"
  end.

(** A result whose [data] is an object holding the array [a] under [k]. *)
Definition json_result (k : string) (a : loc) : StepResult :=
  mkStepResult json (VObj [(k, VArr a)]) None.

(** ** More example states and services *)

(** A state in which the slot of [d] holds [r], the store is [h] and the
    active step is [k]. *)
Definition stored (k d : StepId) (r : StepResult) (h : store) : State :=
  {| activeStep := k;
     moleculeSmiles := "CCO";
     receptorPdbId := "4HER";
     results := <[d := Some r]> (results initial);
     isLoading := false;
     error := None;
     heap := h |}.

(** A service that resolves every call with [r], whose arrays are [fresh]. *)
Definition resolving_with (r : StepResult) (fresh : list (list value)) : AnalysisService :=
  {| service := fun _ _ => Resolved r fresh |}.

Definition four_entries : list value :=
  [candidate "A" 5.0%float; candidate "B" 7.2%float; candidate "C" 7.2%float;
   candidate "D" 6.1%float].

(** * Properties *)

Section Properties.

Context {engine : Engine} {analysis : AnalysisService}.

(** ** Facts about the store monad *)

Lemma extends_refl st : extends st st.
Proof. exists []. by rewrite app_nil_r. Qed.

Lemma extends_trans st1 st2 st3 : extends st1 st2 -> extends st2 st3 -> extends st1 st3.
Proof. intros [e1 ->] [e2 ->]. exists (e1 ++ e2). by rewrite app_assoc. Qed.

Lemma extends_lookup st st' a l : extends st st' -> st !! a = Some l -> st' !! a = Some l.
Proof. intros [ext ->] H. by apply lookup_app_l_Some. Qed.

Lemma allocates_only_ret {A} (a : A) : allocates_only (ret a).
Proof. intros st. apply extends_refl. Qed.

Lemma allocates_only_throw {A} e : allocates_only (@throw A e).
Proof. intros st. apply extends_refl. Qed.

Lemma allocates_only_lift {A} (c : completion A) : allocates_only (lift c).
Proof. intros st. apply extends_refl. Qed.

Lemma allocates_only_read a : allocates_only (read a).
Proof. intros st. apply extends_refl. Qed.

Lemma allocates_only_alloc l : allocates_only (alloc l).
Proof. intros st. by exists [l]. Qed.

Lemma allocates_only_bind {A B} (m : M A) (k : A -> M B) :
  allocates_only m -> (forall a, allocates_only (k a)) -> allocates_only (bind m k).
Proof.
  intros Hm Hk st. unfold bind. specialize (Hm st).
  destruct (m st) as [[a | e] st'] eqn:E; simpl in *.
  - eapply extends_trans; [exact Hm | apply Hk].
  - exact Hm.
Qed.

Create HintDb frame.

#[local] Hint Resolve allocates_only_ret allocates_only_throw allocates_only_lift
  allocates_only_read allocates_only_alloc allocates_only_bind : frame.
#[local] Hint Extern 1 (allocates_only (if ?b then _ else _)) => destruct b : frame.
#[local] Hint Extern 1 (allocates_only (match ?x with _ => _ end)) => destruct x : frame.

(** Sorting a fresh copy: what [[...xs].sort(f)] does to the store. *)
Lemma spread_sort_run a f st :
  (copy <- spread a ;; sort copy f) st =
  match insertion_sort (f (st ++ [contents st a]))
          (List.filter (fun v => negb (is_undefined v)) (contents st a)) with
  | Throw e => (Throw e, st ++ [contents st a])
  | Normal sorted =>
    (Normal (length st), st ++ [sorted ++ List.filter is_undefined (contents st a)])
  end.
Proof.
  unfold bind, spread, read, alloc, sort, bind. simpl.
  assert (Hc : contents (st ++ [contents st a]) (length st) = contents st a).
  { unfold contents at 1. by rewrite list_lookup_middle. }
  rewrite Hc.
  destruct (insertion_sort _ _); [| done].
  f_equal. by rewrite (insert_app_r_alt st _ (length st)), Nat.sub_diag by lia.
Qed.

Lemma bind_assoc {A B C} (m : M A) (g : A -> M B) (k : B -> M C) st :
  bind m (fun x => bind (g x) k) st = bind (bind m g) k st.
Proof. unfold bind. by destruct (m st) as [[a | e] st']. Qed.

Lemma allocates_only_spread_sort {A} a f (k : loc -> M A) :
  (forall c, allocates_only (k c)) ->
  allocates_only (copy <- spread a ;; sorted <- sort copy f ;; k sorted).
Proof.
  intros Hk st. rewrite bind_assoc. unfold bind at 1. rewrite spread_sort_run.
  destruct (insertion_sort _ _) as [sorted | e]; simpl.
  - eapply extends_trans; [| apply Hk]. by eexists.
  - by eexists.
Qed.

Lemma allocates_only_triage_results_of r : allocates_only (triage_results_of r).
Proof. unfold triage_results_of. eauto 12 with frame. Qed.

Lemma allocates_only_getTopTriageCandidate rs : allocates_only (getTopTriageCandidate rs).
Proof.
  unfold getTopTriageCandidate.
  apply allocates_only_bind; [apply allocates_only_triage_results_of |].
  intros [a |]; [| eauto with frame].
  apply allocates_only_spread_sort. intros c. unfold index0. eauto 8 with frame.
Qed.

Lemma allocates_only_with_top_candidate rs call :
  allocates_only (with_top_candidate rs call).
Proof.
  unfold with_top_candidate.
  apply allocates_only_bind; [apply allocates_only_getTopTriageCandidate |].
  intros v. eauto with frame.
Qed.

(** The synchronous part of the handler never writes to an array that
    existed before it ran. *)
Lemma allocates_only_resolve s : allocates_only (resolve s).
Proof.
  unfold resolve.
  destruct (activeStep s); try apply allocates_only_with_top_candidate;
    try solve [eauto 8 with frame].
  apply allocates_only_bind; [apply allocates_only_triage_results_of |].
  intros [a |]; [| eauto with frame].
  apply allocates_only_spread_sort. intros c. unfold slice0, map_array.
  eauto 12 with frame.
Qed.

(** ** Facts about the sort *)

Section SortFacts.

Variable comparefn : value -> value -> completion float.

Variable carrier : list value.

Hypothesis comparefn_total :
  forall x y, In x carrier -> In y carrier -> exists v, comparefn x y = Normal v.

Hypothesis asymmetric :
  forall x y, In x carrier -> In y carrier ->
    goes_behind comparefn x y = true -> goes_behind comparefn y x = false.

Hypothesis complement_transitive :
  forall x y z, In x carrier -> In y carrier -> In z carrier ->
    goes_behind comparefn x y = false -> goes_behind comparefn y z = false -> goes_behind comparefn x z = false.

Lemma insert_Permutation x l r : insert comparefn x l = Normal r -> Permutation (x :: l) r.
Proof.
  revert r. induction l as [| y l IH]; simpl; intros r H.
  - by inversion H.
  - destruct (comparefn x y) as [v |]; [| done].
    destruct (PrimFloat.ltb 0 v).
    + destruct (insert comparefn x l) as [r' |]; [| done].
      inversion H; subst. rewrite perm_swap. constructor. by apply IH.
    + by inversion H.
Qed.

Lemma insertion_sort_Permutation l r :
  insertion_sort comparefn l = Normal r -> Permutation l r.
Proof.
  revert r. induction l as [| x l IH]; simpl; intros r H.
  - by inversion H.
  - destruct (insertion_sort comparefn l) as [s |]; [| done].
    rewrite <- (insert_Permutation _ _ _ H). constructor. by apply IH.
Qed.

Lemma insert_Normal x l :
  In x carrier -> incl l carrier -> exists r, insert comparefn x l = Normal r.
Proof using comparefn_total.
  intros Hx. induction l as [| y l IH]; simpl; intros Hl.
  - by eexists.
  - destruct (comparefn_total x y) as [v ->]; [done | apply Hl; by left |].
    destruct (PrimFloat.ltb 0 v); [| by eexists].
    destruct IH as [r ->]; [| by eexists].
    intros z Hz. apply Hl. by right.
Qed.

Lemma insertion_sort_Normal l :
  incl l carrier -> exists r, insertion_sort comparefn l = Normal r.
Proof using comparefn_total.
  induction l as [| x l IH]; simpl; intros Hl.
  - by eexists.
  - destruct IH as [s Hs]; [intros z Hz; apply Hl; by right |].
    rewrite Hs. apply insert_Normal; [apply Hl; by left |].
    intros z Hz. apply Hl. right.
    eapply Permutation_in; [symmetry; by apply insertion_sort_Permutation | done].
Qed.

Lemma insert_in_order x l r :
  In x carrier -> incl l carrier ->
  in_order comparefn l -> insert comparefn x l = Normal r -> in_order comparefn r.
Proof using asymmetric complement_transitive.
  intros Hx. revert r. induction l as [| y l IH]; simpl; intros r Hl Hs H.
  - inversion H. repeat constructor.
  - assert (Hy : In y carrier) by (apply Hl; by left).
    assert (Hl' : incl l carrier) by (intros z Hz; apply Hl; by right).
    inversion Hs as [| ? ? Hs' Hall]; subst.
    unfold goes_behind in asymmetric, complement_transitive.
    destruct (comparefn x y) as [v |] eqn:Ev; [| done].
    destruct (PrimFloat.ltb 0 v) eqn:Hv.
    + destruct (insert comparefn x l) as [r' |] eqn:Er; [| done].
      inversion H; subst. constructor; [by apply IH |].
      eapply Permutation_Forall; [by apply insert_Permutation |].
      constructor; [| done].
      unfold goes_behind. apply asymmetric; [done | done |]. by rewrite Ev.
    + inversion H; subst. constructor; [done |].
      constructor; [unfold goes_behind; by rewrite Ev |].
      rewrite Forall_forall in Hall |- *. intros z Hz.
      unfold goes_behind.
      apply (complement_transitive x y z);
        [done | done | by apply Hl' | by rewrite Ev |].
      by apply Hall.
Qed.

Lemma insertion_sort_in_order l r :
  incl l carrier -> insertion_sort comparefn l = Normal r -> in_order comparefn r.
Proof using asymmetric complement_transitive.
  revert r. induction l as [| x l IH]; simpl; intros r Hl H.
  - inversion H. constructor.
  - destruct (insertion_sort comparefn l) as [s |] eqn:Es; [| done].
    assert (Hl' : incl l carrier) by (intros z Hz; apply Hl; by right).
    eapply insert_in_order; [apply Hl; by left | | by apply IH | done].
    intros z Hz. apply Hl'.
    eapply Permutation_in; [symmetry; by apply insertion_sort_Permutation | done].
Qed.

(** An element never passes one of equal rank. *)
Lemma insert_stable c x l r :
  In c carrier -> In x carrier -> incl l carrier ->
  insert comparefn x l = Normal r ->
  List.filter (equal_rank comparefn c) r = List.filter (equal_rank comparefn c) (x :: l).
Proof using complement_transitive.
  intros Hc Hx. revert r. induction l as [| y l IH]; intros r Hl H.
  - by inversion H.
  - assert (Hy : In y carrier) by (apply Hl; by left).
    assert (Hl' : incl l carrier) by (intros z Hz; apply Hl; by right).
    simpl in H.
    destruct (comparefn x y) as [v |] eqn:Ev; [| done].
    destruct (PrimFloat.ltb 0 v) eqn:Hv; [| by inversion H].
    destruct (insert comparefn x l) as [r' |] eqn:Er; [| done].
    inversion H; subst.
    assert (Hxy : goes_behind comparefn x y = true) by (unfold goes_behind; by rewrite Ev).
    change (List.filter (equal_rank comparefn c) (y :: r'))
      with (if equal_rank comparefn c y then y :: List.filter (equal_rank comparefn c) r'
            else List.filter (equal_rank comparefn c) r').
    rewrite (IH r' Hl' eq_refl). simpl.
    destruct (equal_rank comparefn c x) eqn:Ecx; [| done].
    destruct (equal_rank comparefn c y) eqn:Ecy; [| done].
    exfalso. unfold equal_rank in Ecx, Ecy.
    apply andb_true_iff in Ecx as [_ Hxc], Ecy as [Hcy _].
    apply negb_true_iff in Hxc, Hcy.
    rewrite (complement_transitive x c y) in Hxy; done.
Qed.

Lemma insertion_sort_stable c l r :
  In c carrier -> incl l carrier ->
  insertion_sort comparefn l = Normal r ->
  List.filter (equal_rank comparefn c) r = List.filter (equal_rank comparefn c) l.
Proof using complement_transitive.
  intros Hc. revert r. induction l as [| x l IH]; simpl; intros r Hl H.
  - by inversion H.
  - destruct (insertion_sort comparefn l) as [s |] eqn:Es; [| done].
    assert (Hl' : incl l carrier) by (intros z Hz; apply Hl; by right).
    rewrite (insert_stable c x s r); [| done | apply Hl; by left | | done].
    + simpl. by rewrite (IH s).
    + intros z Hz. apply Hl'.
      eapply Permutation_in; [symmetry; by apply insertion_sort_Permutation | done].
Qed.

End SortFacts.

(** ** The comparator of the handler on triage entries *)

Lemma entry_get x k : entry x = true -> get x k = Normal (field k x).
Proof. by destruct x. Qed.

Lemma entry_defined x : entry x = true -> is_undefined x = false.
Proof. by destruct x. Qed.

Lemma by_pIC50_entry st x y :
  entry x = true -> entry y = true ->
  by_pIC50 st x y = Normal (PrimFloat.sub (pIC50_of y) (pIC50_of x)).
Proof.
  destruct x as [| | | | | |fx]; try done. destruct y as [| | | | | |fy]; try done.
  unfold by_pIC50, pIC50_of, field. simpl.
  destruct (own "pIC50" fx); try done. by destruct (own "pIC50" fy).
Qed.

Lemma goes_behind_entry st x y :
  entry x = true -> entry y = true -> goes_behind (by_pIC50 st) x y = behind x y.
Proof. intros Hx Hy. unfold goes_behind. by rewrite by_pIC50_entry. Qed.

Lemma entries_In l x : forallb entry l = true -> In x l -> entry x = true.
Proof. intros H. by apply forallb_forall. Qed.

Lemma entries_defined l :
  forallb entry l = true ->
  List.filter (fun v => negb (is_undefined v)) l = l /\ List.filter is_undefined l = [].
Proof.
  induction l as [| x l IH]; simpl; [done |].
  intros [Hx Hl]%andb_true_iff. rewrite (entry_defined x Hx). simpl.
  destruct (IH Hl) as [-> ->]. done.
Qed.

Lemma consistent_asymmetric l x y :
  consistent l = true -> In x l -> In y l -> behind x y = true -> behind y x = false.
Proof.
  intros H Hx Hy Hxy. unfold consistent in H.
  rewrite forallb_forall in H. specialize (H x Hx).
  rewrite forallb_forall in H. specialize (H y Hy).
  apply andb_true_iff in H as [H _]. rewrite Hxy in H. by apply negb_true_iff.
Qed.

Lemma consistent_transitive l x y z :
  consistent l = true -> In x l -> In y l -> In z l ->
  behind x y = false -> behind y z = false -> behind x z = false.
Proof.
  intros H Hx Hy Hz Hxy Hyz. unfold consistent in H.
  rewrite forallb_forall in H. specialize (H x Hx).
  rewrite forallb_forall in H. specialize (H y Hy).
  apply andb_true_iff in H as [_ H].
  rewrite forallb_forall in H. specialize (H z Hz).
  rewrite Hxy, Hyz in H. by apply negb_true_iff.
Qed.

Lemma StronglySorted_lookup {A} (R : A -> A -> Prop) (l : list A) i j x y :
  StronglySorted R l -> (i < j)%nat -> l !! i = Some x -> l !! j = Some y -> R x y.
Proof.
  intros H. revert i j. induction H as [| a l Hs IH Hall]; intros i j Hij Hi Hj; [done |].
  destruct j as [| j]; [lia |]. simpl in Hj.
  destruct i as [| i]; simpl in Hi.
  - inversion Hi; subst. rewrite Forall_forall in Hall. apply Hall.
    apply list_elem_of_In. eapply list_elem_of_lookup_2. exact Hj.
  - apply (IH i j); [lia | done | done].
Qed.

Lemma filter_ext_In' {A} (f g : A -> bool) (l : list A) :
  (forall x, In x l -> f x = g x) -> List.filter f l = List.filter g l.
Proof.
  induction l as [| x l IH]; simpl; intros H; [done |].
  rewrite (H x) by (by left). rewrite IH; [done |]. intros z Hz. apply H. by right.
Qed.

(** The engine's sort with the handler's comparator, on a list of entries
    whose scores compare consistently: a stable descending sort. *)
Lemma insertion_sort_entries st l :
  forallb entry l = true -> consistent l = true ->
  exists sorted,
    insertion_sort (by_pIC50 st) l = Normal sorted /\
    Permutation l sorted /\ descending sorted /\ stable l sorted.
Proof.
  intros Hl Hc.
  assert (Htot : forall x y, In x l -> In y l -> exists v, by_pIC50 st x y = Normal v).
  { intros x y Hx Hy. rewrite by_pIC50_entry; eauto using entries_In. }
  assert (Hasym : forall x y, In x l -> In y l ->
            goes_behind (by_pIC50 st) x y = true -> goes_behind (by_pIC50 st) y x = false).
  { intros x y Hx Hy. rewrite !goes_behind_entry by eauto using entries_In.
    by apply (consistent_asymmetric l). }
  assert (Htrans : forall x y z, In x l -> In y l -> In z l ->
            goes_behind (by_pIC50 st) x y = false -> goes_behind (by_pIC50 st) y z = false ->
            goes_behind (by_pIC50 st) x z = false).
  { intros x y z Hx Hy Hz. rewrite !goes_behind_entry by eauto using entries_In.
    by apply (consistent_transitive l x y z). }
  destruct (insertion_sort_Normal (by_pIC50 st) l Htot l) as [sorted Hs]; [by intros ? |].
  pose proof (insertion_sort_Permutation _ _ _ Hs) as Hp.
  assert (Hin : forall x, In x sorted -> In x l).
  { intros x Hx. eapply Permutation_in; [symmetry; exact Hp | done]. }
  exists sorted. split; [done |]. split; [done |]. split.
  - intros i j x y Hij Hi Hj.
    assert (Hx : In x l) by (apply Hin, list_elem_of_In; by eapply list_elem_of_lookup_2).
    assert (Hy : In y l) by (apply Hin, list_elem_of_In; by eapply list_elem_of_lookup_2).
    rewrite <- (goes_behind_entry st) by eauto using entries_In.
    eapply (StronglySorted_lookup (fun x y => goes_behind (by_pIC50 st) x y = false)
              sorted i j); [| done | done | done].
    eapply (insertion_sort_in_order (by_pIC50 st) l Hasym Htrans l); [by intros ? | done].
  - intros c Hcl.
    rewrite (filter_ext_In' (tie c) (equal_rank (by_pIC50 st) c) sorted).
    2:{ intros x Hx. unfold tie, equal_rank.
        by rewrite !goes_behind_entry by eauto using entries_In. }
    rewrite (filter_ext_In' (tie c) (equal_rank (by_pIC50 st) c) l).
    2:{ intros x Hx. unfold tie, equal_rank.
        by rewrite !goes_behind_entry by eauto using entries_In. }
    eapply (insertion_sort_stable (by_pIC50 st) l Htrans c l); [done | by intros ? | done].
Qed.

(** [[...triage_results].sort((a, b) => b.pIC50 - a.pIC50)] on entries. *)
Lemma sorted_copy_entries st a l :
  st !! a = Some l -> forallb entry l = true -> consistent l = true ->
  exists sorted,
    (copy <- spread a ;; sort copy by_pIC50) st = (Normal (length st), st ++ [sorted]) /\
    Permutation l sorted /\ descending sorted /\ stable l sorted.
Proof.
  intros Ha Hl Hc. rewrite spread_sort_run.
  assert (contents st a = l) as -> by (unfold contents; by rewrite Ha).
  destruct (entries_defined l Hl) as [-> ->].
  destruct (insertion_sort_entries (st ++ [l]) l Hl Hc) as (sorted & -> & Hp & Hd & Hs).
  exists sorted. by rewrite app_nil_r.
Qed.

(** ** The selection of the top candidates, step by step *)

Lemma bind_run {A B} (m : M A) (k : A -> M B) st a st' :
  m st = (Normal a, st') -> bind m k st = k a st'.
Proof. intros H. unfold bind. by rewrite H. Qed.

Lemma triage_results_of_found r a l st :
  type r = json -> get (data r) "triage_results" = Normal (VArr a) ->
  st !! a = Some l -> l <> [] ->
  triage_results_of (Some r) st = (Normal (Some a), st).
Proof.
  intros Ht Hg Ha Hl. unfold triage_results_of. rewrite Ht. simpl.
  unfold bind, lift, read, ret, contents. rewrite Hg. simpl. rewrite Ha. simpl.
  by destruct l.
Qed.

Lemma mapM_entries k l :
  forallb entry l = true ->
  mapM (fun item => get item k) l = Normal (List.map (field k) l).
Proof.
  induction l as [| x l IH]; simpl; [done |].
  intros [Hx Hl]%andb_true_iff. by rewrite (entry_get x k Hx), (IH Hl).
Qed.

Lemma getTopTriageCandidate_run rs r a l st sorted :
  rs rapid_triage = Some r ->
  type r = json -> get (data r) "triage_results" = Normal (VArr a) ->
  st !! a = Some l -> l <> [] ->
  (copy <- spread a ;; sort copy by_pIC50) st = (Normal (length st), st ++ [sorted]) ->
  getTopTriageCandidate rs st =
  (get (match sorted with [] => VUndefined | x :: _ => x end) "smiles", st ++ [sorted]).
Proof.
  intros Hr Ht Hg Ha Hl Hs. unfold getTopTriageCandidate. rewrite Hr.
  rewrite (bind_run _ _ st (Some a) st) by (by eapply triage_results_of_found).
  rewrite bind_assoc. rewrite (bind_run _ _ _ _ _ Hs).
  unfold bind, index0, read, ret, lift, bind, contents.
  by rewrite list_lookup_middle.
Qed.

Lemma resolve_docking_run s r a l sorted :
  activeStep s = docking_rescoring ->
  results s rapid_triage = Some r ->
  type r = json -> get (data r) "triage_results" = Normal (VArr a) ->
  heap s !! a = Some l -> l <> [] ->
  (copy <- spread a ;; sort copy by_pIC50) (heap s)
    = (Normal (length (heap s)), heap s ++ [sorted]) ->
  resolve s (heap s) =
  match mapM (fun item => get item "smiles") (take 3 sorted) with
  | Normal topSmiles =>
    (Normal (runDocking (VArr (length (heap s) + 2)) (receptorPdbId s)),
     heap s ++ [sorted; take 3 sorted; topSmiles])
  | Throw e => (Throw e, heap s ++ [sorted; take 3 sorted])
  end.
Proof.
  intros Hk Hr Ht Hg Ha Hl Hs. unfold resolve. rewrite Hk, Hr.
  rewrite (bind_run _ _ (heap s) (Some a) (heap s)) by (by eapply triage_results_of_found).
  rewrite bind_assoc. rewrite (bind_run _ _ _ _ _ Hs).
  unfold bind, slice0, map_array, read, alloc, ret, lift, bind, contents. simpl.
  rewrite !list_lookup_middle by (rewrite ?length_app; simpl; lia). simpl.
  destruct (mapM _ _) as [ys | e]; simpl; rewrite <- ?app_assoc; simpl; [| done].
  by rewrite !length_app.
Qed.

(** ** The two halves of the handler *)

Lemma begin_preserves s :
  activeStep (fst (begin s)) = activeStep s /\
  moleculeSmiles (fst (begin s)) = moleculeSmiles s /\
  receptorPdbId (fst (begin s)) = receptorPdbId s /\
  results (fst (begin s)) = results s /\
  extends (heap s) (heap (fst (begin s))).
Proof.
  unfold begin. pose proof (allocates_only_resolve s (heap s)) as H.
  by destruct (resolve s (heap s)) as [[req | e] h].
Qed.

Lemma begin_pending s s1 p :
  begin s = (s1, Some p) ->
  isLoading s1 = true /\ error s1 = None /\
  closure_activeStep p = activeStep s /\
  currentStepIndex p =
    findIndex (fun step => StepId_eqb (PipelineStep.id step) (activeStep s)) PIPELINE_STEPS /\
  resolve s (heap s) = (Normal (request p), heap s1).
Proof.
  unfold begin. destruct (resolve s (heap s)) as [[req | e] h]; [| done].
  intros H. by inversion H.
Qed.

Lemma begin_thrown s s1 :
  begin s = (s1, None) ->
  isLoading s1 = false /\
  exists e, resolve s (heap s) = (Throw e, heap s1) /\ error s1 = Some (error_text e).
Proof.
  unfold begin. destruct (resolve s (heap s)) as [[req | e] h]; [done |].
  intros H. inversion H. eauto.
Qed.

Lemma settle_isLoading p o s : isLoading (settle p o s) = false.
Proof.
  unfold settle. destruct o; [| done].
  destruct (_ <? _)%Z; [| done]. by destruct (PIPELINE_STEPS !! _).
Qed.

Lemma settle_results p o s j :
  results (settle p o s) j =
  match o with
  | Resolved response _ => if decide (closure_activeStep p = j) then Some response else results s j
  | Rejected _ => results s j
  end.
Proof.
  unfold settle. destruct o as [r fresh |]; [| done].
  assert (E : forall s' : State,
    results s' = <[closure_activeStep p := Some r]> (results s) ->
    results s' j = if decide (closure_activeStep p = j) then Some r else results s j).
  { intros s' ->. destruct (decide (closure_activeStep p = j)) as [<- | Hne];
      [apply fn_lookup_insert | by apply fn_lookup_insert_ne]. }
  destruct (_ <? _)%Z; [| by apply E]. destruct (PIPELINE_STEPS !! _); by apply E.
Qed.

Lemma settle_heap p o s : extends (heap s) (heap (settle p o s)).
Proof.
  unfold settle. destruct o as [r fresh |]; [| apply extends_refl].
  assert (E : extends (heap s) (heap s ++ fresh)) by (by eexists).
  destruct (_ <? _)%Z; [| done]. by destruct (PIPELINE_STEPS !! _).
Qed.

(** The position the handler computes for the active step, and the step it
    advances to. *)
Lemma settle_activeStep p response fresh s :
  currentStepIndex p =
    findIndex (fun step => StepId_eqb (PipelineStep.id step) (closure_activeStep p))
      PIPELINE_STEPS ->
  (closure_activeStep p = final_report /\
   activeStep (settle p (Resolved response fresh) s) = activeStep s) \/
  next_step (closure_activeStep p) (activeStep (settle p (Resolved response fresh) s)).
Proof.
  intros Hi. unfold settle. rewrite Hi.
  destruct (closure_activeStep p); simpl;
    first [ by left
          | right; unfold next_step;
            first [ by exists 0%nat | by exists 1%nat | by exists 2%nat | by exists 3%nat
                  | by exists 4%nat | by exists 5%nat | by exists 6%nat | by exists 7%nat
                  | by exists 8%nat ] ].
Qed.

Lemma settle_activeStep_rejected p message s :
  activeStep (settle p (Rejected message) s) = activeStep s.
Proof. done. Qed.

Lemma step_order_NoDup : NoDup step_order.
Proof. apply (bool_decide_unpack _). by vm_compute. Qed.

Lemma next_step_functional k k1 k2 : next_step k k1 -> next_step k k2 -> k1 = k2.
Proof.
  intros [i [Hi Hi1]] [j [Hj Hj2]].
  assert (i = j) as -> by (eapply NoDup_lookup; eauto using step_order_NoDup).
  congruence.
Qed.

Lemma final_report_last k : ~ next_step final_report k.
Proof.
  intros [i [Hi Hi']].
  do 10 (destruct i as [| i]; [done |]). done.
Qed.

Lemma handleStepExecution_pending s s1 p :
  begin s = (s1, Some p) ->
  handleStepExecution s = (settle p (service (request p) (heap s1)) s1, [request p]).
Proof. intros H. unfold handleStepExecution. by rewrite H. Qed.

Lemma handleStepExecution_thrown s s1 :
  begin s = (s1, None) -> handleStepExecution s = (s1, []).
Proof. intros H. unfold handleStepExecution. by rewrite H. Qed.

Lemma error_text_not_found k : error_text (Error (not_found k)) = not_found k.
Proof. by destruct k. Qed.

(** With the dependency slot empty the switch throws at once. *)
Lemma resolve_missing_dependency s d st :
  dependency (activeStep s) = Some d -> results s d = None ->
  resolve s st = (Throw (Error (not_found (activeStep s))), st).
Proof.
  intros Hd Hr. unfold resolve.
  destruct (activeStep s); simpl in Hd; try discriminate; inversion Hd; subst d;
    unfold with_top_candidate, getTopTriageCandidate; rewrite Hr; reflexivity.
Qed.

(** Neither half of the handler empties a slot, whatever state the call
    settles in and whichever step the suspended handler was started on. *)
Lemma begin_keeps_filled s k : results s k <> None -> results (fst (begin s)) k <> None.
Proof. destruct (begin_preserves s) as (_ & _ & _ & -> & _). done. Qed.

Lemma settle_keeps_filled p o s k :
  results s k <> None -> results (settle p o s) k <> None.
Proof.
  intros H. rewrite settle_results. destruct o; [| done]. by destruct (decide _).
Qed.

(** Each "not found" message quotes the display name that [PIPELINE_STEPS]
    gives to the step whose result is missing. *)
Lemma not_found_names_the_step k d :
  dependency k = Some d ->
  exists step before,
    In step PIPELINE_STEPS /\ PipelineStep.id step = d /\
    not_found k =
      String.append before
        (String.append dquote
           (String.append (PipelineStep.name step) (String.append dquote " step first."))).
Proof.
  intros Hd.
  destruct k; simpl in Hd; try discriminate; inversion Hd; subst d;
    [ exists (PipelineStep.mk generative_design "Generative Design"
                "Create novel candidate molecules." GenerateIcon),
        "Generated molecules not found. Please complete the "
    | exists (PipelineStep.mk rapid_triage "Rapid Triage"
                "Quickly filter candidates with learned models." TriageIcon),
        "Triage results not found. Please complete the " .. ];
    (split; [simpl; tauto | split; reflexivity]).
Qed.

(** ** The claims *)

(** C1, as amended.  [handleStepExecution] has no guard on [isLoading]: it
    never reads the flag.  Run in a state where the flag is set, it does what
    it does in the same state with the flag cleared, the call to the
    Analysis Service included. *)
Theorem C1_isLoading_is_not_consulted (s : State) (b : bool) :
  begin (setIsLoading b s) = begin s /\
  handleStepExecution (setIsLoading b s) = handleStepExecution s.
Proof. split; reflexivity. Qed.

(** C3.  For each of the seven steps that read an earlier result, running
    the step while the slot it reads is empty fails with the step's
    "not found" message, makes no call, and leaves [results], [activeStep]
    and the store as they were. *)
Theorem C3_missing_dependency_fails (s : State) (d : StepId) :
  dependency (activeStep s) = Some d ->
  results s d = None ->
  snd (handleStepExecution s) = [] /\
  error (fst (handleStepExecution s)) = Some (not_found (activeStep s)) /\
  results (fst (handleStepExecution s)) = results s /\
  activeStep (fst (handleStepExecution s)) = activeStep s /\
  isLoading (fst (handleStepExecution s)) = false /\
  heap (fst (handleStepExecution s)) = heap s.
Proof.
  intros Hd Hr. unfold handleStepExecution, begin.
  rewrite (resolve_missing_dependency s d (heap s) Hd Hr). simpl.
  by rewrite error_text_not_found.
Qed.

(** C4.  When the call for the active step is rejected, [error] becomes the
    rejection's message, or 'An unexpected error occurred.' when the message
    is absent or empty; [activeStep] and every slot of [results] are as
    before, and [isLoading] ends false. *)
Theorem C4_collaborator_failure (s s1 : State) (p : Pending) (message : option string) :
  begin s = (s1, Some p) ->
  service (request p) (heap s1) = Rejected message ->
  (forall m, message = Some m -> m <> EmptyString ->
     error (fst (handleStepExecution s)) = Some m) /\
  (message = None \/ message = Some EmptyString ->
     error (fst (handleStepExecution s)) = Some unexpected_error) /\
  activeStep (fst (handleStepExecution s)) = activeStep s /\
  (forall j, results (fst (handleStepExecution s)) j = results s j) /\
  isLoading (fst (handleStepExecution s)) = false.
Proof.
  intros Hb Hs. rewrite (handleStepExecution_pending s s1 p Hb), Hs. simpl.
  destruct (begin_preserves s) as (Ha & _ & _ & Hr & _). rewrite Hb in Ha, Hr. simpl in *.
  repeat split; [| | done | by rewrite Hr].
  - intros m -> Hm. unfold error_text. simpl.
    destruct (String.eqb_spec m EmptyString); [done | done].
  - by intros [-> | ->].
Qed.

(** C5.  When the call for the active step is resolved, the response is
    stored in the step's slot; [activeStep] becomes the next step of
    [PIPELINE_STEPS], or stays when the step is the last one
    ([final_report]); [isLoading] ends false. *)
Theorem C5_success_stores_and_advances
    (s s1 : State) (p : Pending) (response : StepResult) (fresh : list (list value)) :
  begin s = (s1, Some p) ->
  service (request p) (heap s1) = Resolved response fresh ->
  results (fst (handleStepExecution s)) (activeStep s) = Some response /\
  (activeStep s <> final_report ->
     next_step (activeStep s) (activeStep (fst (handleStepExecution s)))) /\
  (activeStep s = final_report ->
     activeStep (fst (handleStepExecution s)) = final_report) /\
  isLoading (fst (handleStepExecution s)) = false.
Proof.
  intros Hb Hs. rewrite (handleStepExecution_pending s s1 p Hb), Hs. cbn [fst snd].
  destruct (begin_pending s s1 p Hb) as (_ & _ & Hk & Hi & _).
  destruct (begin_preserves s) as (Ha & _). rewrite Hb in Ha. simpl in Ha.
  rewrite <- Hk in Hi.
  destruct (settle_activeStep p response fresh s1 Hi) as [[Hlast Hstay] | Hnext];
    rewrite Hk in *.
  - repeat split.
    + rewrite settle_results, Hk. by destruct (decide _).
    + done.
    + intros _. by rewrite Hstay, Ha.
    + apply settle_isLoading.
  - repeat split.
    + rewrite settle_results, Hk. by destruct (decide _).
    + done.
    + intros Hlast. rewrite Hlast in Hnext. by apply final_report_last in Hnext.
    + apply settle_isLoading.
Qed.

(** A run changes at most the slot of the active step, and only by
    filling it. *)
Lemma handleStepExecution_results s j :
  results (fst (handleStepExecution s)) j = results s j \/
  (j = activeStep s /\ exists r, results (fst (handleStepExecution s)) j = Some r).
Proof.
  destruct (begin_preserves s) as (_ & _ & _ & Hr & _).
  destruct (begin s) as [s1 [p |]] eqn:Hb; simpl in Hr.
  - rewrite (handleStepExecution_pending s s1 p Hb). cbn [fst].
    destruct (begin_pending s s1 p Hb) as (_ & _ & Hk & _).
    rewrite settle_results, Hk, Hr.
    destruct (service _ _) as [r fresh |]; [| by left].
    destruct (decide (activeStep s = j)) as [<- | Hne]; [right; eauto | by left].
  - rewrite (handleStepExecution_thrown s s1 Hb). left. by rewrite <- Hr.
Qed.

Lemma handleStepExecution_activeStep s :
  activeStep (fst (handleStepExecution s)) = activeStep s \/
  next_step (activeStep s) (activeStep (fst (handleStepExecution s))).
Proof.
  destruct (begin_preserves s) as (Ha & _).
  destruct (begin s) as [s1 [p |]] eqn:Hb; simpl in Ha.
  - rewrite (handleStepExecution_pending s s1 p Hb). cbn [fst].
    destruct (begin_pending s s1 p Hb) as (_ & _ & Hk & Hi & _).
    destruct (service _ _) as [r fresh |]; [| by left].
    rewrite <- Hk in Hi.
    destruct (settle_activeStep p r fresh s1 Hi) as [[_ Hstay] | Hnext].
    + left. by rewrite Hstay.
    + right. by rewrite <- Hk.
  - rewrite (handleStepExecution_thrown s s1 Hb). by left.
Qed.

Lemma handleStepExecution_heap s : extends (heap s) (heap (fst (handleStepExecution s))).
Proof.
  destruct (begin_preserves s) as (_ & _ & _ & _ & Hh).
  destruct (begin s) as [s1 [p |]] eqn:Hb; simpl in Hh.
  - rewrite (handleStepExecution_pending s s1 p Hb). cbn [fst].
    eapply extends_trans; [exact Hh | apply settle_heap].
  - by rewrite (handleStepExecution_thrown s s1 Hb).
Qed.

(** C7.  Running a step whose slot is already filled changes no other slot
    of [results]; the step's own slot stays filled; [activeStep] either
    stays or becomes the next step of [PIPELINE_STEPS]. *)
Theorem C7_reexecution_touches_one_slot (s : State) :
  results s (activeStep s) <> None ->
  (forall j, j <> activeStep s -> results (fst (handleStepExecution s)) j = results s j) /\
  results (fst (handleStepExecution s)) (activeStep s) <> None /\
  (activeStep (fst (handleStepExecution s)) = activeStep s \/
   next_step (activeStep s) (activeStep (fst (handleStepExecution s)))).
Proof.
  intros Hfilled. repeat split.
  - intros j Hj. by destruct (handleStepExecution_results s j) as [H | [H _]].
  - destruct (handleStepExecution_results s (activeStep s)) as [H | [_ [r H]]];
      rewrite H; done.
  - apply handleStepExecution_activeStep.
Qed.

(** C8.  No operation of the component empties a slot of [results]: a slot
    that holds a result before [handleStepClick], an edit of either input
    field or a run of [handleStepExecution] holds one after it. *)
Theorem C8_filled_slot_stays_filled (a : Action) (s : State) (k : StepId) :
  results s k <> None -> results (dispatch a s) k <> None.
Proof.
  intros Hk. destruct a; simpl; try done.
  destruct (handleStepExecution_results s k) as [H | [_ [r H]]]; rewrite H; done.
Qed.

(** C9.  Running a step that selects its input from the triage results
    leaves the slot of [rapid_triage] as it was and writes to no array that
    existed before the run, the stored [triage_results] among them: the sort
    works on an array allocated by the run.  The same holds of the part of
    the run before the call. *)
Theorem C9_triage_payload_untouched (s : State) :
  downstream_of_triage (activeStep s) = true ->
  results (fst (handleStepExecution s)) rapid_triage = results s rapid_triage /\
  (forall a l, heap s !! a = Some l -> heap (fst (handleStepExecution s)) !! a = Some l) /\
  results (fst (begin s)) rapid_triage = results s rapid_triage /\
  (forall a l, heap s !! a = Some l -> heap (fst (begin s)) !! a = Some l).
Proof.
  intros Hd. destruct (begin_preserves s) as (_ & _ & _ & Hr & Hh).
  repeat split.
  - destruct (handleStepExecution_results s rapid_triage) as [H | [H _]]; [done |].
    rewrite <- H in Hd. done.
  - intros a l. apply extends_lookup, handleStepExecution_heap.
  - by rewrite Hr.
  - intros a l. by apply extends_lookup.
Qed.

Lemma entries_Permutation l l' :
  Permutation l l' -> forallb entry l = true -> forallb entry l' = true.
Proof.
  intros Hp H. apply forallb_forall. intros x Hx.
  eapply entries_In; [exact H |]. eapply Permutation_in; [symmetry; exact Hp | done].
Qed.

Lemma entries_take n l : forallb entry l = true -> forallb entry (take n l) = true.
Proof.
  intros H. apply forallb_forall. intros x Hx.
  eapply entries_In; [exact H |]. apply list_elem_of_In.
  eapply (subseteq_take n). by apply list_elem_of_In.
Qed.

(** What the docking case passes to [runDocking], on entries. *)
Lemma resolve_docking_entries s r a l sorted :
  activeStep s = docking_rescoring ->
  results s rapid_triage = Some r ->
  type r = json -> get (data r) "triage_results" = Normal (VArr a) ->
  heap s !! a = Some l -> l <> [] ->
  (copy <- spread a ;; sort copy by_pIC50) (heap s)
    = (Normal (length (heap s)), heap s ++ [sorted]) ->
  forallb entry sorted = true ->
  resolve s (heap s) =
    (Normal (runDocking (VArr (length (heap s) + 2)) (receptorPdbId s)),
     heap s ++ [sorted; take 3 sorted; List.map (field "smiles") (take 3 sorted)]).
Proof.
  intros Hk Hr Ht Hg Ha Hl Hs He.
  rewrite (resolve_docking_run s r a l sorted Hk Hr Ht Hg Ha Hl Hs).
  by rewrite mapM_entries by (by apply entries_take).
Qed.

Lemma lookup_third {A} (st : list A) x y z : (st ++ [x; y; z]) !! (length st + 2)%nat = Some z.
Proof. rewrite lookup_app_r by lia. by replace (length st + 2 - length st)%nat with 2%nat by lia. Qed.

(** C2.  On triage entries whose scores compare consistently, the
    selection sorts a copy of [triage_results] by [pIC50], descending and
    stably; [getTopTriageCandidate] returns the [smiles] of the first entry
    of the sorted copy, and the docking case passes the [smiles] of its
    first three entries.  For the entries A (5.0), B (7.2), C (7.2) the top
    candidate is B and the docking list is B, C, A. *)
Theorem C2_top_candidate_selection :
  (forall (s : State) (r : StepResult) (a : loc) (l : list value),
     results s rapid_triage = Some r ->
     type r = json ->
     get (data r) "triage_results" = Normal (VArr a) ->
     heap s !! a = Some l ->
     l <> [] ->
     forallb entry l = true ->
     consistent l = true ->
     exists top rest,
       Permutation l (top :: rest) /\
       descending (top :: rest) /\
       stable l (top :: rest) /\
       fst (getTopTriageCandidate (results s) (heap s)) = Normal (field "smiles" top) /\
       (activeStep s = docking_rescoring ->
        exists topSmiles h,
          resolve s (heap s) = (Normal (runDocking (VArr topSmiles) (receptorPdbId s)), h) /\
          h !! topSmiles = Some (List.map (field "smiles") (take 3 (top :: rest))))) /\
  fst (getTopTriageCandidate (results (triaged md_simulation example_triage)) [example_triage])
    = Normal (VStr "B") /\
  (exists h,
     resolve (triaged docking_rescoring example_triage) [example_triage]
       = (Normal (runDocking (VArr 3) "4HER"), h) /\
     h !! 3%nat = Some [VStr "B"; VStr "C"; VStr "A"]).
Proof.
  split; [| split; [by vm_compute | eexists; split; by vm_compute]].
  intros s r a l Hr Ht Hg Ha Hl He Hc.
  destruct (sorted_copy_entries (heap s) a l Ha He Hc) as (sorted & Hs & Hp & Hd & Hst).
  destruct sorted as [| top rest].
  { apply Permutation_nil_r in Hp. done. }
  exists top, rest. repeat split; try done.
  - rewrite (getTopTriageCandidate_run _ r a l (heap s) (top :: rest)) by done.
    simpl. apply entry_get. eapply entries_In; [exact He |].
    eapply Permutation_in; [symmetry; exact Hp | by left].
  - intros Hk. eexists _, _. split.
    + eapply resolve_docking_entries; eauto using entries_Permutation.
    + apply lookup_third.
Qed.

(** C10.  With one or two triage entries whose scores compare
    consistently, the docking step passes its check: the handler calls
    [runDocking] with the [smiles] of all the entries, in descending order
    of [pIC50], and no error is set. *)
Theorem C10_docking_with_fewer_than_three
    (s : State) (r : StepResult) (a : loc) (l : list value) :
  activeStep s = docking_rescoring ->
  results s rapid_triage = Some r ->
  type r = json ->
  get (data r) "triage_results" = Normal (VArr a) ->
  heap s !! a = Some l ->
  l <> [] ->
  (length l < 3)%nat ->
  forallb entry l = true ->
  consistent l = true ->
  exists sorted topSmiles s1 p,
    begin s = (s1, Some p) /\
    request p = runDocking (VArr topSmiles) (receptorPdbId s) /\
    heap s1 !! topSmiles = Some (List.map (field "smiles") sorted) /\
    Permutation l sorted /\
    descending sorted /\
    error s1 = None /\
    snd (handleStepExecution s) = [request p].
Proof.
  intros Hk Hr Ht Hg Ha Hl Hlen He Hc.
  destruct (sorted_copy_entries (heap s) a l Ha He Hc) as (sorted & Hs & Hp & Hd & Hst).
  assert (Hres := resolve_docking_entries s r a l sorted Hk Hr Ht Hg Ha Hl Hs
                    (entries_Permutation _ _ Hp He)).
  assert (Htake : take 3 sorted = sorted).
  { apply take_ge. rewrite <- (Permutation_length Hp). lia. }
  rewrite Htake in Hres.
  assert (Hb : begin s = begin s) by done.
  unfold begin at 2 in Hb. rewrite Hres in Hb.
  eexists sorted, _, _, _. split; [exact Hb |]. simpl.
  repeat split; try done.
  - apply lookup_third.
  - by rewrite (handleStepExecution_pending _ _ _ Hb).
Qed.

(** [Array.prototype.sort] does write to the array it is given: sorting the
    stored array itself, without the copy, would reorder it. *)
Lemma sort_writes_in_place :
  sort 0 by_pIC50 [example_triage]
  = (Normal 0%nat, [[candidate "B" 7.2%float; candidate "C" 7.2%float; candidate "A" 5.0%float]]).
Proof. by vm_compute. Qed.

(** The check of the triage results (lines 50 and 82) refuses what is not a
    non-empty array: every step that reads them then throws before any
    call. *)
Lemma resolve_malformed_triage s r tr :
  downstream_of_triage (activeStep s) = true ->
  results s rapid_triage = Some r ->
  get (data r) "triage_results" = Normal tr ->
  match tr with VArr a => contents (heap s) a = [] | _ => True end ->
  resolve s (heap s) = (Throw (Error triage_not_found), heap s).
Proof.
  intros Hd Hr Hg Htr.
  assert (Hn : triage_results_of (Some r) (heap s) = (Normal None, heap s)).
  { unfold triage_results_of. destruct (is_json (type r)); [| done].
    unfold bind, lift. rewrite Hg.
    destruct (truthy tr); [| done]. destruct tr; try done.
    unfold read, ret. by rewrite Htr. }
  unfold resolve.
  destruct (activeStep s); try discriminate Hd;
    unfold with_top_candidate, getTopTriageCandidate; rewrite Hr;
    unfold bind; by rewrite Hn.
Qed.

(** The check of the generated molecules (line 74) is a truthiness test:
    whatever truthy value [generated_smiles] holds is passed on. *)
Lemma resolve_generated_truthy s r g st :
  activeStep s = rapid_triage ->
  results s generative_design = Some r ->
  type r = json ->
  get (data r) "generated_smiles" = Normal g ->
  truthy g = true ->
  resolve s st = (Normal (triageCandidates g), st).
Proof.
  intros Hk Hr Ht Hg Hg'. unfold resolve. rewrite Hk, Hr, Ht. simpl.
  unfold bind, lift. by rewrite Hg, Hg'.
Qed.

(** C6, at the input where the code departs from it.  When
    [generative_design] has stored an empty [generated_smiles] list, running
    [rapid_triage] does not fail: the empty array is truthy, so the handler
    calls [triageCandidates] with it and sets no error. *)
Theorem C6_empty_generated_list_is_sent :
  contents (heap (generated [])) 0 = [] /\
  snd (handleStepExecution (generated [])) = [triageCandidates (VArr 0)] /\
  exists s1 p,
    begin (generated []) = (s1, Some p) /\
    request p = triageCandidates (VArr 0) /\
    error s1 = None.
Proof.
  assert (Hres : resolve (generated []) (heap (generated []))
                 = (Normal (triageCandidates (VArr 0)), heap (generated []))).
  { by apply (resolve_generated_truthy _
                (mkStepResult json (VObj [("generated_smiles", VArr 0)]) None)). }
  assert (Hb : begin (generated []) = begin (generated [])) by done.
  unfold begin at 2 in Hb. rewrite Hres in Hb.
  split; [done |]. split.
  - by rewrite (handleStepExecution_pending _ _ _ Hb).
  - by eexists _, _.
Qed.

End Properties.

(** * The claims on concrete runs *)

(** C1 as stated fails.  [in_flight] is the state while the call made from
    the initial state is pending, so [isLoading] is set; run there, the
    handler makes a second call, fills a slot and advances. *)
Lemma C1_counterexample :
  isLoading in_flight = true /\
  snd (handleStepExecution (engine := example_engine)
         (analysis := resolving (text_response "ok")) in_flight)
    = [analyzeDataAssembly "CCO"] /\
  results in_flight data_assembly = None /\
  results (fst (handleStepExecution (engine := example_engine)
                  (analysis := resolving (text_response "ok")) in_flight)) data_assembly
    = Some (text_response "ok") /\
  activeStep in_flight = data_assembly /\
  activeStep (fst (handleStepExecution (engine := example_engine)
                     (analysis := resolving (text_response "ok")) in_flight))
    = pocket_detection.
Proof. repeat split; by vm_compute. Qed.

(** C2 on the example of the specification. *)
Lemma C2_witness :
  exists top rest,
    Permutation example_triage (top :: rest) /\
    descending (top :: rest) /\
    stable example_triage (top :: rest) /\
    fst (getTopTriageCandidate (engine := example_engine)
           (results (triaged docking_rescoring example_triage)) [example_triage])
      = Normal (field "smiles" top) /\
    (docking_rescoring = docking_rescoring ->
     exists topSmiles h,
       resolve (engine := example_engine) (triaged docking_rescoring example_triage)
         [example_triage]
         = (Normal (runDocking (VArr topSmiles) "4HER"), h) /\
       h !! topSmiles = Some (List.map (field "smiles") (take 3 (top :: rest)))).
Proof.
  apply (proj1 (C2_top_candidate_selection (engine := example_engine))
           (triaged docking_rescoring example_triage)
           (mkStepResult json (VObj [("triage_results", VArr 0)]) None) 0%nat example_triage);
    [reflexivity | reflexivity | reflexivity | reflexivity | discriminate
    | vm_compute; reflexivity | vm_compute; reflexivity].
Defined.

(** C3 on a run of [md_simulation] from the initial state. *)
Lemma C3_witness :
  snd (handleStepExecution (engine := example_engine)
         (analysis := resolving (text_response "ok")) (setActiveStep md_simulation initial))
    = [] /\
  error (fst (handleStepExecution (engine := example_engine)
                (analysis := resolving (text_response "ok"))
                (setActiveStep md_simulation initial)))
    = Some triage_not_found /\
  results (fst (handleStepExecution (engine := example_engine)
                  (analysis := resolving (text_response "ok"))
                  (setActiveStep md_simulation initial)))
    = results initial /\
  activeStep (fst (handleStepExecution (engine := example_engine)
                     (analysis := resolving (text_response "ok"))
                     (setActiveStep md_simulation initial)))
    = md_simulation /\
  isLoading (fst (handleStepExecution (engine := example_engine)
                    (analysis := resolving (text_response "ok"))
                    (setActiveStep md_simulation initial)))
    = false /\
  heap (fst (handleStepExecution (engine := example_engine)
               (analysis := resolving (text_response "ok"))
               (setActiveStep md_simulation initial)))
    = [].
Proof.
  apply (C3_missing_dependency_fails (engine := example_engine)
           (analysis := resolving (text_response "ok"))
           (setActiveStep md_simulation initial) rapid_triage);
    reflexivity.
Defined.

(** C4 on a run from the initial state whose call is rejected. *)
Lemma C4_witness :
  (forall m, Some "quota exceeded" = Some m -> m <> EmptyString ->
     error (fst (handleStepExecution (engine := example_engine)
                   (analysis := rejecting (Some "quota exceeded")) initial)) = Some m) /\
  (Some "quota exceeded" = None \/ Some "quota exceeded" = Some EmptyString ->
     error (fst (handleStepExecution (engine := example_engine)
                   (analysis := rejecting (Some "quota exceeded")) initial))
       = Some unexpected_error) /\
  activeStep (fst (handleStepExecution (engine := example_engine)
                     (analysis := rejecting (Some "quota exceeded")) initial))
    = activeStep initial /\
  (forall j,
     results (fst (handleStepExecution (engine := example_engine)
                     (analysis := rejecting (Some "quota exceeded")) initial)) j
       = results initial j) /\
  isLoading (fst (handleStepExecution (engine := example_engine)
                    (analysis := rejecting (Some "quota exceeded")) initial))
    = false.
Proof.
  apply (C4_collaborator_failure (engine := example_engine)
           (analysis := rejecting (Some "quota exceeded")) initial in_flight
           (mkPending (analyzeDataAssembly "CCO") data_assembly 0));
    reflexivity.
Defined.

(** C5 on a run from the initial state whose call is resolved. *)
Lemma C5_witness :
  results (fst (handleStepExecution (engine := example_engine)
                  (analysis := resolving (text_response "ok")) initial)) (activeStep initial)
    = Some (text_response "ok") /\
  (activeStep initial <> final_report ->
   next_step (activeStep initial)
     (activeStep (fst (handleStepExecution (engine := example_engine)
                         (analysis := resolving (text_response "ok")) initial)))) /\
  (activeStep initial = final_report ->
   activeStep (fst (handleStepExecution (engine := example_engine)
                      (analysis := resolving (text_response "ok")) initial))
     = final_report) /\
  isLoading (fst (handleStepExecution (engine := example_engine)
                    (analysis := resolving (text_response "ok")) initial))
    = false.
Proof.
  apply (C5_success_stores_and_advances (engine := example_engine)
           (analysis := resolving (text_response "ok")) initial in_flight
           (mkPending (analyzeDataAssembly "CCO") data_assembly 0)
           (text_response "ok") []);
    reflexivity.
Defined.

(** C7 on a second run of the first step. *)
Lemma C7_witness :
  (forall j, j <> activeStep rerun ->
     results (fst (handleStepExecution (engine := example_engine)
                     (analysis := resolving (text_response "new")) rerun)) j
       = results rerun j) /\
  results (fst (handleStepExecution (engine := example_engine)
                  (analysis := resolving (text_response "new")) rerun)) (activeStep rerun)
    <> None /\
  (activeStep (fst (handleStepExecution (engine := example_engine)
                      (analysis := resolving (text_response "new")) rerun))
     = activeStep rerun \/
   next_step (activeStep rerun)
     (activeStep (fst (handleStepExecution (engine := example_engine)
                         (analysis := resolving (text_response "new")) rerun)))).
Proof.
  apply (C7_reexecution_touches_one_slot (engine := example_engine)
           (analysis := resolving (text_response "new")) rerun).
  discriminate.
Defined.

(** C8 on a run whose call is rejected, the slot of the step being filled. *)
Lemma C8_witness :
  results (dispatch (engine := example_engine)
             (analysis := rejecting None) onExecute rerun) data_assembly <> None.
Proof.
  apply (C8_filled_slot_stays_filled (engine := example_engine)
           (analysis := rejecting None) onExecute rerun data_assembly).
  discriminate.
Defined.

(** C9 on a run of [md_simulation] over the example of the specification. *)
Lemma C9_witness :
  results (fst (handleStepExecution (engine := example_engine)
                  (analysis := resolving (text_response "ok"))
                  (triaged md_simulation example_triage))) rapid_triage
    = results (triaged md_simulation example_triage) rapid_triage /\
  (forall a l,
     heap (triaged md_simulation example_triage) !! a = Some l ->
     heap (fst (handleStepExecution (engine := example_engine)
                  (analysis := resolving (text_response "ok"))
                  (triaged md_simulation example_triage))) !! a = Some l) /\
  results (fst (begin (engine := example_engine) (triaged md_simulation example_triage)))
    rapid_triage
    = results (triaged md_simulation example_triage) rapid_triage /\
  (forall a l,
     heap (triaged md_simulation example_triage) !! a = Some l ->
     heap (fst (begin (engine := example_engine) (triaged md_simulation example_triage)))
       !! a = Some l).
Proof.
  apply (C9_triage_payload_untouched (engine := example_engine)
           (analysis := resolving (text_response "ok"))
           (triaged md_simulation example_triage)).
  reflexivity.
Defined.

(** C10 on triage results with two entries. *)
Lemma C10_witness :
  exists sorted topSmiles s1 p,
    begin (engine := example_engine) (triaged docking_rescoring two_entries) = (s1, Some p) /\
    request p = runDocking (VArr topSmiles) "4HER" /\
    heap s1 !! topSmiles = Some (List.map (field "smiles") sorted) /\
    Permutation two_entries sorted /\
    descending sorted /\
    error s1 = None /\
    snd (handleStepExecution (engine := example_engine)
           (analysis := resolving (text_response "ok"))
           (triaged docking_rescoring two_entries))
      = [request p].
Proof.
  apply (C10_docking_with_fewer_than_three (engine := example_engine)
           (analysis := resolving (text_response "ok"))
           (triaged docking_rescoring two_entries)
           (mkStepResult json (VObj [("triage_results", VArr 0)]) None) 0%nat two_entries);
    [reflexivity | reflexivity | reflexivity | reflexivity | reflexivity | discriminate
    | vm_compute; lia | vm_compute; reflexivity | vm_compute; reflexivity].
Defined.

(** The run of the example of C10, computed: the call carries B, then A. *)
Lemma docking_with_two_entries :
  exists h,
    resolve (engine := example_engine) (triaged docking_rescoring two_entries) [two_entries]
      = (Normal (runDocking (VArr 3) "4HER"), h) /\
    h !! 3%nat = Some [VStr "B"; VStr "A"].
Proof. eexists. split; by vm_compute. Qed.

(** The sibling check of C6: an empty [triage_results] list is refused
    before any call. *)
Lemma empty_triage_list_is_refused :
  handleStepExecution (engine := example_engine)
    (analysis := resolving (text_response "ok")) (triaged md_simulation [])
  = (setError (Some triage_not_found) (triaged md_simulation []), []).
Proof. by vm_compute. Qed.

(** * Further properties of the component *)

Section Coverage.

Context {engine : Engine} {analysis : AnalysisService}.

(** ** Runs that end before the call *)

Lemma thrown_fails s e h :
  resolve s (heap s) = (Throw e, h) -> fails_with s (error_text e).
Proof. intros H. unfold fails_with, handleStepExecution, begin. by rewrite H. Qed.

Lemma resolved_calls s req h :
  resolve s (heap s) = (Normal req, h) ->
  snd (handleStepExecution s) = [req] /\
  exists s1 p, begin s = (s1, Some p) /\ request p = req /\ error s1 = None /\ heap s1 = h.
Proof.
  intros H. unfold handleStepExecution, begin. rewrite H. simpl.
  split; [done |]. by eexists _, _.
Qed.

(** What the seven dependent steps do with the result they depend on when
    its check throws or fails. *)
Lemma resolve_dependency_throws s d r e :
  dependency (activeStep s) = Some d ->
  results s d = Some r ->
  type r = json ->
  get (data r) (dependency_field (activeStep s)) = Throw e ->
  resolve s (heap s) = (Throw e, heap s).
Proof.
  intros Hd Hr Ht Hg. unfold resolve.
  destruct (activeStep s); simpl in Hd, Hg; try discriminate; inversion Hd; subst d;
    unfold with_top_candidate, getTopTriageCandidate, triage_results_of;
    rewrite Hr, Ht; simpl; unfold bind, lift; by rewrite Hg.
Qed.

Lemma resolve_not_json s d r :
  dependency (activeStep s) = Some d ->
  results s d = Some r ->
  type r <> json ->
  resolve s (heap s) = (Throw (Error (not_found (activeStep s))), heap s).
Proof.
  intros Hd Hr Ht. assert (Hj : is_json (type r) = false) by (by destruct (type r)).
  unfold resolve.
  destruct (activeStep s); simpl in Hd; try discriminate; inversion Hd; subst d;
    unfold with_top_candidate, getTopTriageCandidate, triage_results_of;
    by rewrite Hr, Hj.
Qed.

Lemma resolve_generated_falsy s r g :
  activeStep s = rapid_triage ->
  results s generative_design = Some r ->
  get (data r) "generated_smiles" = Normal g ->
  truthy g = false ->
  resolve s (heap s) = (Throw (Error generated_not_found), heap s).
Proof.
  intros Hk Hr Hg Hf. unfold resolve. rewrite Hk, Hr.
  destruct (is_json (type r)); [| done]. unfold bind, lift. by rewrite Hg, Hf.
Qed.

(** X1.  A stored result of type json whose [data] is [null] or [undefined]
    makes the step that depends on it fail with the engine's [TypeError]
    for the property it reads, not with the "not found" message; no call is
    made and [results] and [activeStep] stay. *)
Theorem json_result_without_data_fails (s : State) (d : StepId) (r : StepResult) :
  dependency (activeStep s) = Some d ->
  results s d = Some r ->
  type r = json ->
  data r = VNull \/ data r = VUndefined ->
  fails_with s (error_text (TypeError (data r) (dependency_field (activeStep s)))).
Proof.
  intros Hd Hr Ht Hdata. eapply thrown_fails, resolve_dependency_throws; eauto.
  by destruct Hdata as [-> | ->].
Qed.

(** X2.  A dependent step fails with its "not found" message, without a
    call, when the result it depends on is not of type json, and also when
    the property it reads is falsy (absent, null, an empty string, zero) or,
    for the steps that read [triage_results], is not an array or is an
    empty array. *)
Theorem unusable_dependency_fails (s : State) (d : StepId) (r : StepResult) :
  dependency (activeStep s) = Some d ->
  results s d = Some r ->
  type r <> json \/
  (exists v,
     get (data r) (dependency_field (activeStep s)) = Normal v /\
     (truthy v = false \/
      (d = rapid_triage /\
       match v with VArr a => contents (heap s) a = [] | _ => True end))) ->
  fails_with s (not_found (activeStep s)).
Proof.
  intros Hd Hr [Ht | (v & Hg & Hv)].
  { rewrite <- error_text_not_found. eapply thrown_fails, resolve_not_json; eauto. }
  rewrite <- error_text_not_found. apply (thrown_fails _ _ (heap s)).
  destruct (decide (d = rapid_triage)) as [-> | Hne].
  - assert (Hdown : downstream_of_triage (activeStep s) = true)
      by (unfold downstream_of_triage; by rewrite Hd).
    assert (Hf : dependency_field (activeStep s) = "triage_results")
      by (destruct (activeStep s); simpl in Hd; by try discriminate).
    assert (Hn : not_found (activeStep s) = triage_not_found)
      by (destruct (activeStep s); simpl in Hd; by try discriminate).
    rewrite Hf in Hg. rewrite Hn.
    apply (resolve_malformed_triage s r v Hdown Hr Hg).
    destruct Hv as [Hv | [_ Hv]]; [by destruct v | done].
  - assert (Hk : activeStep s = rapid_triage)
      by (destruct (activeStep s); simpl in Hd; inversion Hd; by subst d).
    rewrite Hk in *. simpl in Hd, Hg. inversion Hd; subst d.
    destruct Hv as [Hv | [Habs _]]; [| done].
    by apply (resolve_generated_falsy s r v).
Qed.

(** X3.  [rapid_triage] does not look at what [generated_smiles] is: any
    truthy value (a string, a number, an object, an empty array) is passed
    to [triageCandidates] as it is, and the run sets no error before the
    call. *)
Theorem rapid_triage_passes_any_truthy_value (s : State) (r : StepResult) (g : value) :
  activeStep s = rapid_triage ->
  results s generative_design = Some r ->
  type r = json ->
  get (data r) "generated_smiles" = Normal g ->
  truthy g = true ->
  snd (handleStepExecution s) = [triageCandidates g] /\
  exists s1 p,
    begin s = (s1, Some p) /\ request p = triageCandidates g /\
    error s1 = None /\ heap s1 = heap s.
Proof.
  intros Hk Hr Ht Hg Hv. apply resolved_calls.
  by apply (resolve_generated_truthy s r g).
Qed.

Lemma error_text_nonempty e : error_text e <> EmptyString.
Proof.
  unfold error_text. destruct (message_of e) as [m |]; [| done].
  by destruct (String.eqb_spec m EmptyString).
Qed.

(** X4.  After a run, [error] tells how it went: it is [null] when a call
    was made and resolved and only then; otherwise it holds a message that
    is never the empty string, and [results] is as before the run.  The
    error of an earlier run has no part in it. *)
Theorem error_after_a_run (s : State) :
  match error (fst (handleStepExecution s)) with
  | None =>
    exists s1 p response fresh,
      begin s = (s1, Some p) /\
      service (request p) (heap s1) = Resolved response fresh
  | Some m =>
    m <> EmptyString /\ results (fst (handleStepExecution s)) = results s
  end /\
  (forall s1 p response fresh,
     begin s = (s1, Some p) ->
     service (request p) (heap s1) = Resolved response fresh ->
     error (fst (handleStepExecution s)) = None) /\
  forall e, handleStepExecution (setError e s) = handleStepExecution s.
Proof.
  split; [| split; [| done]].
  2:{ intros s1 p response fresh Hb Hs.
      rewrite (handleStepExecution_pending s s1 p Hb), Hs. cbn [fst].
      destruct (begin_pending s s1 p Hb) as (_ & He & Hk & Hi & _).
      unfold settle. rewrite Hi, Hk. by destruct (activeStep s). }
  destruct (begin_preserves s) as (_ & _ & _ & Hr & _).
  destruct (begin s) as [s1 [p |]] eqn:Hb; simpl in Hr.
  - rewrite (handleStepExecution_pending s s1 p Hb). cbn [fst].
    destruct (begin_pending s s1 p Hb) as (_ & He & Hk & Hi & _).
    destruct (service (request p) (heap s1)) as [response fresh | message] eqn:Hs.
    + assert (error (settle p (Resolved response fresh) s1) = None) as ->; [| by eexists _, _, _, _].
      unfold settle. rewrite Hi, Hk.
      by destruct (activeStep s).
    + simpl. split; [apply error_text_nonempty | done].
  - rewrite (handleStepExecution_thrown s s1 Hb). cbn [fst].
    destruct (begin_thrown s s1 Hb) as (_ & e & _ & ->).
    split; [apply error_text_nonempty | done].
Qed.

(** ** Entries the comparator cannot read *)

Lemma by_pIC50_null_right st x : by_pIC50 st x VNull = Throw (TypeError VNull "pIC50").
Proof. done. Qed.

Lemma by_pIC50_null_left st y :
  is_undefined y = false -> y <> VNull ->
  by_pIC50 st VNull y = Throw (TypeError VNull "pIC50").
Proof. by destruct y. Qed.

Lemma by_pIC50_total st x y :
  is_undefined x = false -> x <> VNull -> is_undefined y = false -> y <> VNull ->
  exists v, by_pIC50 st x y = Normal v.
Proof. destruct x, y; try done; unfold by_pIC50; simpl; by eexists. Qed.

Lemma filter_defined_all l :
  (forall z, In z l -> is_undefined z = false) ->
  List.filter (fun v => negb (is_undefined v)) l = l /\ List.filter is_undefined l = [].
Proof.
  induction l as [| x l IH]; intros H; [done |]. simpl.
  rewrite (H x) by (by left). simpl.
  destruct IH as [-> ->]; [intros z Hz; apply H; by right | done].
Qed.

(** With two or more elements, one of them [null], the sort throws: every
    element meets the comparator, and the comparator reads [pIC50] of both
    its arguments. *)
Lemma insertion_sort_null st l :
  (forall z, In z l -> is_undefined z = false) ->
  In VNull l ->
  (2 <= length l)%nat ->
  insertion_sort (by_pIC50 st) l = Throw (TypeError VNull "pIC50").
Proof.
  induction l as [| x l IH]; intros Hdef Hnull Hlen; [done |].
  assert (Hdef' : forall z, In z l -> is_undefined z = false)
    by (intros z Hz; apply Hdef; by right).
  simpl.
  destruct (existsb (fun v => match v with VNull => true | _ => false end) l) eqn:Hex.
  - apply existsb_exists in Hex as (z & Hz & Hzn).
    assert (z = VNull) as -> by (by destruct z).
    destruct l as [| y [| y' l']]; [done | |].
    + destruct Hz as [-> | []]. done.
    + rewrite IH; [done | done | done | simpl; lia].
  - assert (Hnn : forall z, In z l -> z <> VNull).
    { intros z Hz ->.
      assert (existsb (fun v => match v with VNull => true | _ => false end) l = true)
        by (apply existsb_exists; by exists VNull).
      congruence. }
    destruct Hnull as [-> | Hin]; [| by apply Hnn in Hin].
    destruct (insertion_sort_Normal (by_pIC50 st) l) with (l := l) as [sorted Hs].
    { intros a b Ha Hb. apply by_pIC50_total; auto. }
    { by intros ?. }
    rewrite Hs. pose proof (insertion_sort_Permutation _ _ _ Hs) as Hp.
    destruct sorted as [| y sorted].
    { apply Permutation_nil_r in Hp. subst l. simpl in Hlen. lia. }
    assert (Hy : In y l) by (eapply Permutation_in; [symmetry; exact Hp | by left]).
    simpl. by rewrite by_pIC50_null_left by auto.
Qed.

(** The steps that read the triage results pass on what the sort throws. *)
Lemma resolve_sort_throws s r a l e h :
  downstream_of_triage (activeStep s) = true ->
  results s rapid_triage = Some r ->
  type r = json -> get (data r) "triage_results" = Normal (VArr a) ->
  heap s !! a = Some l -> l <> [] ->
  (copy <- spread a ;; sort copy by_pIC50) (heap s) = (Throw e, h) ->
  resolve s (heap s) = (Throw e, h).
Proof.
  intros Hd Hr Ht Hg Ha Hl Hs.
  pose proof (triage_results_of_found r a l (heap s) Ht Hg Ha Hl) as Hf.
  assert (Htop : getTopTriageCandidate (results s) (heap s) = (Throw e, h)).
  { unfold getTopTriageCandidate. rewrite Hr, (bind_run _ _ _ _ _ Hf).
    rewrite bind_assoc. unfold bind at 1. by rewrite Hs. }
  unfold resolve.
  destruct (activeStep s); try discriminate Hd;
    try (unfold with_top_candidate, bind; by rewrite Htop).
  rewrite Hr, (bind_run _ _ _ _ _ Hf). rewrite bind_assoc. unfold bind at 1. by rewrite Hs.
Qed.

(** X5.  When the stored [triage_results] has two or more elements and one
    of them is [null], every step that reads it fails with the engine's
    [TypeError] for reading [pIC50] of [null]: no call is made, and
    [results] and [activeStep] stay. *)
Theorem null_triage_entry_fails (s : State) (r : StepResult) (a : loc) (l : list value) :
  downstream_of_triage (activeStep s) = true ->
  results s rapid_triage = Some r ->
  type r = json ->
  get (data r) "triage_results" = Normal (VArr a) ->
  heap s !! a = Some l ->
  (forall z, In z l -> is_undefined z = false) ->
  In VNull l ->
  (2 <= length l)%nat ->
  fails_with s (error_text (TypeError VNull "pIC50")).
Proof.
  intros Hd Hr Ht Hg Ha Hdef Hnull Hlen.
  apply (thrown_fails _ _ (heap s ++ [l])).
  apply (resolve_sort_throws s r a l); try done.
  { by destruct l. }
  rewrite spread_sort_run.
  assert (contents (heap s) a = l) as -> by (unfold contents; by rewrite Ha).
  destruct (filter_defined_all l Hdef) as [-> _].
  by rewrite insertion_sort_null.
Qed.

(** ** The calls the dependent steps make *)

Lemma sorted_copy_total st a l :
  st !! a = Some l -> forallb entry l = true ->
  exists sorted,
    (copy <- spread a ;; sort copy by_pIC50) st = (Normal (length st), st ++ [sorted]) /\
    Permutation l sorted.
Proof.
  intros Ha Hl. rewrite spread_sort_run.
  assert (contents st a = l) as -> by (unfold contents; by rewrite Ha).
  destruct (entries_defined l Hl) as [-> ->].
  destruct (insertion_sort_Normal (by_pIC50 (st ++ [l])) l) with (l := l) as [sorted Hs].
  { intros x y Hx Hy. rewrite by_pIC50_entry; eauto using entries_In. }
  { by intros ?. }
  rewrite Hs. exists sorted. rewrite app_nil_r. split; [done |].
  by apply insertion_sort_Permutation in Hs.
Qed.

(** The docking step on entries, whatever their scores. *)
Lemma docking_on_entries s r a l :
  activeStep s = docking_rescoring ->
  results s rapid_triage = Some r ->
  type r = json ->
  get (data r) "triage_results" = Normal (VArr a) ->
  heap s !! a = Some l ->
  l <> [] ->
  forallb entry l = true ->
  exists sorted h,
    Permutation l sorted /\
    resolve s (heap s)
      = (Normal (runDocking (VArr (length (heap s) + 2)) (receptorPdbId s)), h) /\
    h !! (length (heap s) + 2)%nat = Some (List.map (field "smiles") (take 3 sorted)).
Proof.
  intros Hk Hr Ht Hg Ha Hl He.
  destruct (sorted_copy_total (heap s) a l Ha He) as (sorted & Hs & Hp).
  exists sorted. eexists. split; [done |]. split.
  - eapply resolve_docking_entries; eauto using entries_Permutation.
  - apply lookup_third.
Qed.

Lemma passed_smiles l sorted passed :
  Permutation l sorted ->
  passed = List.map (field "smiles") (take 3 sorted) ->
  length passed = Nat.min 3 (length l) /\
  forall v, In v passed -> exists x, In x l /\ v = field "smiles" x.
Proof.
  intros Hp ->. split.
  - rewrite length_map, length_take, (Permutation_length Hp). lia.
  - intros v (x & <- & Hx)%in_map_iff. exists x. split; [| done].
    eapply Permutation_in; [symmetry; exact Hp |].
    apply list_elem_of_In. eapply (subseteq_take 3). by apply list_elem_of_In.
Qed.

(** X6.  On triage entries (objects with a numeric [pIC50]), whatever their
    number and scores, the docking step makes its call: it passes
    min(3, n) values, each the [smiles] of one of the n entries, together
    with the receptor identifier, and sets no error before the call. *)
Theorem docking_passes_up_to_three
    (s : State) (r : StepResult) (a : loc) (l : list value) :
  activeStep s = docking_rescoring ->
  results s rapid_triage = Some r ->
  type r = json ->
  get (data r) "triage_results" = Normal (VArr a) ->
  heap s !! a = Some l ->
  l <> [] ->
  forallb entry l = true ->
  exists topSmiles passed s1 p,
    begin s = (s1, Some p) /\
    request p = runDocking (VArr topSmiles) (receptorPdbId s) /\
    heap s1 !! topSmiles = Some passed /\
    length passed = Nat.min 3 (length l) /\
    (forall v, In v passed -> exists x, In x l /\ v = field "smiles" x) /\
    error s1 = None /\
    snd (handleStepExecution s) = [request p].
Proof.
  intros Hk Hr Ht Hg Ha Hl He.
  destruct (docking_on_entries s r a l Hk Hr Ht Hg Ha Hl He) as (sorted & h & Hp & Hres & Hh).
  destruct (resolved_calls s _ h Hres) as (Hcalls & s1 & p & Hb & Hreq & Herr & Hheap).
  destruct (passed_smiles l sorted _ Hp eq_refl) as [Hlen Hin].
  exists (length (heap s) + 2)%nat, (List.map (field "smiles") (take 3 sorted)), s1, p.
  rewrite Hheap, Hreq. by repeat split.
Qed.

(** X7.  The five steps that work on one molecule agree on it: in the same
    state, whichever of them is active, either each calls with the same
    candidate, which is truthy, or each throws the same error; and each
    leaves the same store. *)
Theorem single_candidate_steps_agree (s : State) (st : store) (k1 k2 : StepId) :
  single_candidate k1 = true ->
  single_candidate k2 = true ->
  match fst (resolve (setActiveStep k1 s) st), fst (resolve (setActiveStep k2 s) st) with
  | Normal req1, Normal req2 =>
    exists v, top_argument req1 = Some v /\ top_argument req2 = Some v /\ truthy v = true
  | Throw e1, Throw e2 => e1 = e2
  | _, _ => False
  end /\
  snd (resolve (setActiveStep k1 s) st) = snd (resolve (setActiveStep k2 s) st).
Proof.
  intros H1 H2.
  destruct k1; try discriminate H1; destruct k2; try discriminate H2;
    unfold resolve; simpl; unfold with_top_candidate, bind;
    destruct (getTopTriageCandidate (results s) st) as [[v | e] st']; simpl;
    try done; destruct (truthy v) eqn:Hv; simpl; split; try done; by exists v.
Qed.

(** X8.  Results are threaded from one run to the next: when the run of
    [generative_design] is resolved with a json result whose
    [generated_smiles] is truthy, the handler advances, and the next run
    calls [triageCandidates] with exactly that value. *)
Theorem generated_molecules_reach_triage
    (s s1 : State) (p : Pending) (r : StepResult) (fresh : list (list value)) (g : value) :
  activeStep s = generative_design ->
  begin s = (s1, Some p) ->
  service (request p) (heap s1) = Resolved r fresh ->
  type r = json ->
  get (data r) "generated_smiles" = Normal g ->
  truthy g = true ->
  activeStep (fst (handleStepExecution s)) = rapid_triage /\
  snd (handleStepExecution (fst (handleStepExecution s))) = [triageCandidates g].
Proof.
  intros Hk Hb Hs Ht Hg Hv.
  rewrite (handleStepExecution_pending s s1 p Hb), Hs. cbn [fst].
  destruct (begin_pending s s1 p Hb) as (_ & _ & Hc & Hi & _).
  rewrite Hk in Hc, Hi.
  set (s' := settle p (Resolved r fresh) s1).
  assert (Ha : activeStep s' = rapid_triage) by (unfold s', settle; by rewrite Hi).
  assert (Hr : results s' generative_design = Some r).
  { unfold s'. rewrite settle_results, Hc. by destruct (decide _). }
  split; [done |].
  by apply (resolved_calls s' _ (heap s')), (resolve_generated_truthy s' r g).
Qed.

(** X9.  Likewise for the triage results: when the run of [rapid_triage] is
    resolved with a json result whose [triage_results] is a non-empty array
    of entries, the handler advances to the docking step, and the next run
    calls [runDocking] with min(3, n) of their [smiles] and the receptor
    identifier. *)
Theorem triage_results_reach_docking
    (s s1 : State) (p : Pending) (r : StepResult) (fresh : list (list value))
    (a : loc) (l : list value) :
  activeStep s = rapid_triage ->
  begin s = (s1, Some p) ->
  service (request p) (heap s1) = Resolved r fresh ->
  type r = json ->
  get (data r) "triage_results" = Normal (VArr a) ->
  (heap s1 ++ fresh) !! a = Some l ->
  l <> [] ->
  forallb entry l = true ->
  activeStep (fst (handleStepExecution s)) = docking_rescoring /\
  exists topSmiles passed s2 p2,
    begin (fst (handleStepExecution s)) = (s2, Some p2) /\
    snd (handleStepExecution (fst (handleStepExecution s))) = [request p2] /\
    request p2 = runDocking (VArr topSmiles) (receptorPdbId s) /\
    heap s2 !! topSmiles = Some passed /\
    length passed = Nat.min 3 (length l) /\
    (forall v, In v passed -> exists x, In x l /\ v = field "smiles" x).
Proof.
  intros Hk Hb Hs Ht Hg Ha Hl He.
  rewrite (handleStepExecution_pending s s1 p Hb), Hs. cbn [fst].
  destruct (begin_pending s s1 p Hb) as (_ & _ & Hc & Hi & _).
  destruct (begin_preserves s) as (_ & _ & Hrec & _). rewrite Hb in Hrec. simpl in Hrec.
  rewrite Hk in Hc, Hi.
  set (s' := settle p (Resolved r fresh) s1).
  assert (Hact : activeStep s' = docking_rescoring) by (unfold s', settle; by rewrite Hi).
  assert (Hr : results s' rapid_triage = Some r).
  { unfold s'. rewrite settle_results, Hc. by destruct (decide _). }
  assert (Hh : heap s' = heap s1 ++ fresh) by (unfold s', settle; by rewrite Hi).
  assert (Hrc : receptorPdbId s' = receptorPdbId s) by (unfold s', settle; by rewrite Hi).
  split; [done |]. rewrite <- Hh in Ha.
  destruct (docking_on_entries s' r a l Hact Hr Ht Hg Ha Hl He)
    as (sorted & h & Hp & Hres & Hlook).
  destruct (resolved_calls s' _ h Hres) as (Hcalls & s2 & p2 & Hb2 & Hreq & _ & Hheap).
  destruct (passed_smiles l sorted _ Hp eq_refl) as [Hlen Hin].
  exists (length (heap s') + 2)%nat, (List.map (field "smiles") (take 3 sorted)), s2, p2.
  rewrite Hheap, Hreq, Hcalls, Hrc. by repeat split.
Qed.

(** ** What is rendered *)

Lemma result_keys_complete k : In k result_keys.
Proof. destruct k; simpl; tauto. Qed.

Lemma result_keys_NoDup : NoDup result_keys.
Proof. apply (bool_decide_unpack _). by vm_compute. Qed.

Lemma completedSteps_In s k : In k (completedSteps s) <-> results s k <> None.
Proof.
  unfold completedSteps. rewrite filter_In. split.
  - intros [_ H]. by destruct (results s k).
  - intros H. split; [apply result_keys_complete | by destruct (results s k)].
Qed.

Lemma currentStepInfo_defined s :
  exists info,
    currentStepInfo s = Some info /\ In info PIPELINE_STEPS /\
    PipelineStep.id info = activeStep s.
Proof.
  unfold currentStepInfo.
  destruct (activeStep s); simpl; eexists; (split; [reflexivity | split; [simpl; tauto | done]]).
Qed.

Lemma next_step_differs k k' : next_step k k' -> k' <> k.
Proof.
  intros [i [Hi Hi']] ->.
  assert (i = S i) by (eapply NoDup_lookup; eauto using step_order_NoDup). lia.
Qed.

(** X10.  The steps the stepper marks as completed are exactly those whose
    slot holds a result, each listed once; the mounted component has
    none. *)
Theorem completedSteps_are_the_filled_slots (s : State) :
  (forall k, In k (completedSteps s) <-> results s k <> None) /\
  NoDup (PipelineStepper.completedSteps (stepper s)) /\
  completedSteps initial = [].
Proof.
  split; [apply completedSteps_In |]. split; [| done].
  apply NoDup_ListNoDup. simpl. apply List.NoDup_filter.
  apply NoDup_ListNoDup, result_keys_NoDup.
Qed.

(** X11.  A card is rendered in every state, for the active step and from
    an entry of [PIPELINE_STEPS]; it is marked completed exactly when the
    stepper lists the step as completed; the SMILES input shows only on
    [data_assembly] and the receptor input only on [docking_rescoring]. *)
Theorem a_card_is_always_rendered (s : State) :
  exists c,
    card s = Some c /\
    In (StepCard.step c) PIPELINE_STEPS /\
    PipelineStep.id (StepCard.step c) = activeStep s /\
    (StepCard.isCompleted c = true <-> In (activeStep s) (completedSteps s)) /\
    (StepCard.isSmilesInputVisible c = true <-> activeStep s = data_assembly) /\
    (StepCard.isReceptorInputVisible c = true <-> activeStep s = docking_rescoring).
Proof.
  destruct (currentStepInfo_defined s) as (info & Hinfo & Hin & Hid).
  unfold card. rewrite Hinfo. eexists. split; [reflexivity |]. simpl.
  split; [done |]. split; [done |]. split; [| split].
  - rewrite completedSteps_In. by destruct (results s (activeStep s)).
  - unfold StepId_eqb. by rewrite bool_decide_eq_true.
  - unfold StepId_eqb. by rewrite bool_decide_eq_true.
Qed.

(** X12.  The index the handler computes for the active step is never -1,
    it is the position of the step in [PIPELINE_STEPS], and the entry read
    at [currentStepIndex + 1] exists whenever the handler reads it. *)
Theorem currentStepIndex_in_bounds (k : StepId) :
  exists i step,
    findIndex (fun step => StepId_eqb (PipelineStep.id step) k) PIPELINE_STEPS = Z.of_nat i /\
    PIPELINE_STEPS !! i = Some step /\
    PipelineStep.id step = k /\
    ((Z.of_nat i <? Z.of_nat (length PIPELINE_STEPS) - 1)%Z = true ->
     exists next, PIPELINE_STEPS !! Z.to_nat (Z.of_nat i + 1) = Some next).
Proof.
  destruct k;
    [ exists 0%nat | exists 1%nat | exists 2%nat | exists 3%nat | exists 4%nat
    | exists 5%nat | exists 6%nat | exists 7%nat | exists 8%nat | exists 9%nat ];
    eexists; (split; [reflexivity | split; [reflexivity | split; [reflexivity |]]]);
    simpl; intros H; try discriminate H; by eexists.
Qed.

(** ** The input fields *)

Lemma settle_setReceptorPdbId p o v s :
  settle p o (setReceptorPdbId v s) = setReceptorPdbId v (settle p o s).
Proof.
  unfold settle. destruct o; [| done].
  destruct (_ <? _)%Z; [| done]. by destruct (PIPELINE_STEPS !! _).
Qed.

Lemma settle_setMoleculeSmiles p o v s :
  settle p o (setMoleculeSmiles v s) = setMoleculeSmiles v (settle p o s).
Proof.
  unfold settle. destruct o; [| done].
  destruct (_ <? _)%Z; [| done]. by destruct (PIPELINE_STEPS !! _).
Qed.

(** X13.  The receptor identifier matters to the docking step only: on any
    other step, editing it changes neither the call the run makes nor
    anything of the state the run ends in but the field itself. *)
Theorem receptor_matters_to_docking_only (s : State) (v : string) :
  activeStep s <> docking_rescoring ->
  handleStepExecution (setReceptorPdbId v s)
  = (setReceptorPdbId v (fst (handleStepExecution s)), snd (handleStepExecution s)).
Proof.
  intros Hk.
  assert (Hres : resolve (setReceptorPdbId v s) (heap s) = resolve s (heap s)).
  { unfold resolve. simpl. by destruct (activeStep s). }
  unfold handleStepExecution, begin. simpl. rewrite Hres.
  destruct (resolve s (heap s)) as [[req | e] h]; simpl; [| done].
  by rewrite <- settle_setReceptorPdbId.
Qed.

(** X14.  The SMILES field matters to the steps that pass it on
    ([data_assembly], [pocket_detection], [generative_design],
    [final_report]) only: on the six steps between, editing it changes
    neither the call nor anything of the resulting state but the field. *)
Theorem smiles_do_not_matter_between (s : State) (v : string) :
  In (activeStep s)
     [rapid_triage; docking_rescoring; md_simulation; admet_prediction; active_learning;
      synthesis_planning] ->
  handleStepExecution (setMoleculeSmiles v s)
  = (setMoleculeSmiles v (fst (handleStepExecution s)), snd (handleStepExecution s)).
Proof.
  intros Hk.
  assert (Hres : resolve (setMoleculeSmiles v s) (heap s) = resolve s (heap s)).
  { unfold resolve. simpl. destruct (activeStep s); try done; simpl in Hk; intuition congruence. }
  unfold handleStepExecution, begin. simpl. rewrite Hres.
  destruct (resolve s (heap s)) as [[req | e] h]; simpl; [| done].
  by rewrite <- settle_setMoleculeSmiles.
Qed.

(** ** Calls that settle late *)

(** X15.  A call that settles after the user has clicked another step is
    still applied for the step it was started on: a response is stored in
    that step's slot and in no other, and [activeStep] becomes the step
    after it (the click is undone) unless it was [final_report]; a rejection
    leaves the user on the clicked step and shows its message there. *)
Theorem late_settlement_applies_to_the_started_step
    (s s1 : State) (p : Pending) (id : StepId) :
  begin s = (s1, Some p) ->
  (forall response fresh,
     results (settle p (Resolved response fresh) (handleStepClick id s1)) (activeStep s)
       = Some response /\
     (forall j, j <> activeStep s ->
        results (settle p (Resolved response fresh) (handleStepClick id s1)) j = results s j) /\
     (activeStep s <> final_report ->
        next_step (activeStep s)
          (activeStep (settle p (Resolved response fresh) (handleStepClick id s1)))) /\
     (activeStep s = final_report ->
        activeStep (settle p (Resolved response fresh) (handleStepClick id s1)) = id) /\
     error (settle p (Resolved response fresh) (handleStepClick id s1)) = None) /\
  (forall message,
     activeStep (settle p (Rejected message) (handleStepClick id s1)) = id /\
     error (settle p (Rejected message) (handleStepClick id s1))
       = Some (error_text (Rejection message)) /\
     results (settle p (Rejected message) (handleStepClick id s1)) = results s).
Proof.
  intros Hb.
  destruct (begin_pending s s1 p Hb) as (_ & _ & Hk & Hi & _).
  destruct (begin_preserves s) as (_ & _ & _ & Hr & _). rewrite Hb in Hr. simpl in Hr.
  split.
  - intros response fresh. rewrite <- Hk in Hi.
    destruct (settle_activeStep p response fresh (handleStepClick id s1) Hi)
      as [[Hlast Hstay] | Hnext]; rewrite Hk in *.
    + repeat split.
      * rewrite settle_results, Hk. by destruct (decide _).
      * intros j Hj. rewrite settle_results, Hk. destruct (decide _); [congruence |].
        simpl. by rewrite Hr.
      * done.
      * intros _. by rewrite Hstay.
      * unfold settle. rewrite Hi, Hlast. done.
    + repeat split.
      * rewrite settle_results, Hk. by destruct (decide _).
      * intros j Hj. rewrite settle_results, Hk. destruct (decide _); [congruence |].
        simpl. by rewrite Hr.
      * done.
      * intros Hlast. rewrite Hlast in Hnext. by apply final_report_last in Hnext.
      * unfold settle. rewrite Hi. by destruct (activeStep s).
  - intros message. simpl. by rewrite Hr.
Qed.

(** X16.  After a resolved run of a step other than the last, the card on
    display is the next step's: it shows what that step's slot held before
    the run, not the response just stored, with no error and no spinner. *)
Theorem the_card_moves_on_after_success
    (s s1 : State) (p : Pending) (response : StepResult) (fresh : list (list value)) :
  begin s = (s1, Some p) ->
  service (request p) (heap s1) = Resolved response fresh ->
  activeStep s <> final_report ->
  exists c,
    card (fst (handleStepExecution s)) = Some c /\
    next_step (activeStep s) (PipelineStep.id (StepCard.step c)) /\
    StepCard.result c = results s (PipelineStep.id (StepCard.step c)) /\
    StepCard.isLoading c = false /\
    StepCard.error c = None.
Proof.
  intros Hb Hs Hk.
  set (s' := fst (handleStepExecution s)).
  assert (Hnext : next_step (activeStep s) (activeStep s')).
  { destruct (handleStepExecution_activeStep s) as [Hsame | H]; [| done].
    unfold s'. rewrite (handleStepExecution_pending s s1 p Hb), Hs. cbn [fst].
    destruct (begin_pending s s1 p Hb) as (_ & _ & Hc & Hi & _). rewrite <- Hc in Hi.
    destruct (settle_activeStep p response fresh s1 Hi) as [[Hlast _] | H]; [congruence |].
    by rewrite <- Hc. }
  assert (Hres : results s' (activeStep s') = results s (activeStep s')).
  { destruct (handleStepExecution_results s (activeStep s')) as [H | [H _]]; [done |].
    by apply next_step_differs in Hnext. }
  assert (Herr : error s' = None).
  { unfold s'. rewrite (handleStepExecution_pending s s1 p Hb), Hs. cbn [fst].
    destruct (begin_pending s s1 p Hb) as (_ & He & Hc & Hi & _).
    unfold settle. rewrite Hi. by destruct (activeStep s). }
  assert (Hload : isLoading s' = false).
  { unfold s'. rewrite (handleStepExecution_pending s s1 p Hb). apply settle_isLoading. }
  destruct (currentStepInfo_defined s') as (info & Hinfo & _ & Hid).
  unfold card. rewrite Hinfo. eexists. split; [reflexivity |]. simpl.
  rewrite Hid. by repeat split.
Qed.

(** ** Every interleaving *)

Lemma fire_results e x k :
  results (current x) k <> None -> results (current (fire e x)) k <> None.
Proof.
  intros H. destruct e; simpl; try done.
  - pose proof (begin_keeps_filled (current x) k H) as H'.
    by destruct (begin (current x)) as [s1 [p |]].
  - destruct (awaiting x !! n); [| done]. by apply settle_keeps_filled.
Qed.

Lemma fire_heap e x : extends (heap (current x)) (heap (current (fire e x))).
Proof.
  destruct e; simpl; try apply extends_refl.
  - destruct (begin_preserves (current x)) as (_ & _ & _ & _ & H).
    by destruct (begin (current x)) as [s1 [p |]].
  - destruct (awaiting x !! n); [apply settle_heap | apply extends_refl].
Qed.

Lemma fire_released e x :
  (awaiting x = [] -> isLoading (current x) = false) ->
  awaiting (fire e x) = [] -> isLoading (current (fire e x)) = false.
Proof.
  intros Hinv. destruct e; simpl; try done.
  - destruct (begin (current x)) as [s1 [p |]] eqn:Hb; simpl.
    + intros H. by destruct (awaiting x).
    + intros _. by destruct (begin_thrown _ _ Hb).
  - destruct (awaiting x !! n); [| done]. simpl. intros _. apply settle_isLoading.
Qed.

(** X17.  However clicks, edits, starts of the handler and settlements of
    its calls follow one another, the steps marked completed only grow, and
    every stored array keeps its place and its contents. *)
Theorem completed_steps_only_grow (events : list Event) (x : Session) :
  incl (completedSteps (current x)) (completedSteps (current (play events x))) /\
  extends (heap (current x)) (heap (current (play events x))).
Proof.
  revert x. induction events as [| e events IH]; intros x.
  - split; [by intros ? | apply extends_refl].
  - destruct (IH (fire e x)) as [Hc Hh]. split.
    + intros k Hk. apply Hc. apply completedSteps_In. apply fire_results.
      by apply completedSteps_In.
    + eapply extends_trans; [apply fire_heap | exact Hh].
Qed.

(** X18.  The spinner is released: from the mounted component, however the
    events follow one another, [isLoading] is false whenever no call is in
    flight. *)
Theorem no_call_in_flight_no_spinner (events : list Event) :
  awaiting (play events mounted) = [] ->
  isLoading (current (play events mounted)) = false.
Proof.
  assert (H : forall x, (awaiting x = [] -> isLoading (current x) = false) ->
            awaiting (play events x) = [] -> isLoading (current (play events x)) = false).
  { induction events as [| e events IH]; intros x Hx; [done |].
    apply IH. by apply fire_released. }
  by apply H.
Qed.

(** X19.  [isLoading] is no lock: when the handler is started twice before
    the first call settles, the first settlement clears the flag while the
    second call is still in flight. *)
Theorem the_flag_is_cleared_by_the_first_settlement
    (s s1 s2 : State) (p1 p2 : Pending) (o : Outcome) :
  begin s = (s1, Some p1) ->
  begin s1 = (s2, Some p2) ->
  awaiting (play [executed; executed; settled 0 o] (mkSession s [])) = [p2] /\
  isLoading (current (play [executed; executed; settled 0 o] (mkSession s []))) = false.
Proof.
  intros H1 H2. unfold play. simpl. rewrite H1. simpl. rewrite H2. simpl.
  split; [done | apply settle_isLoading].
Qed.

End Coverage.

(** * The further properties on concrete runs *)

(** X1 on a triage result whose [data] is [null]. *)
Lemma json_result_without_data_fails_witness :
  fails_with (engine := example_engine) (analysis := resolving (text_response "ok"))
    (stored md_simulation rapid_triage (mkStepResult json VNull None) [])
    (error_text (engine := example_engine) (TypeError VNull "triage_results")).
Proof.
  apply (json_result_without_data_fails (engine := example_engine)
           (analysis := resolving (text_response "ok"))
           (stored md_simulation rapid_triage (mkStepResult json VNull None) [])
           rapid_triage (mkStepResult json VNull None));
    [reflexivity | reflexivity | reflexivity | left; reflexivity].
Defined.

(** X2 on a triage result of type text. *)
Lemma unusable_dependency_fails_witness :
  fails_with (engine := example_engine) (analysis := resolving (text_response "ok"))
    (stored md_simulation rapid_triage (text_response "report") [])
    triage_not_found.
Proof.
  apply (unusable_dependency_fails (engine := example_engine)
           (analysis := resolving (text_response "ok"))
           (stored md_simulation rapid_triage (text_response "report") [])
           rapid_triage (text_response "report"));
    [reflexivity | reflexivity | left; discriminate].
Defined.

(** X3 on a [generated_smiles] that is a string. *)
Lemma rapid_triage_passes_any_truthy_value_witness :
  snd (handleStepExecution (engine := example_engine)
         (analysis := resolving (text_response "ok"))
         (stored rapid_triage generative_design
            (mkStepResult json (VObj [("generated_smiles", VStr "CCN")]) None) []))
    = [triageCandidates (VStr "CCN")] /\
  exists s1 p,
    begin (engine := example_engine)
      (stored rapid_triage generative_design
         (mkStepResult json (VObj [("generated_smiles", VStr "CCN")]) None) [])
      = (s1, Some p) /\
    request p = triageCandidates (VStr "CCN") /\
    error s1 = None /\
    heap s1 = [].
Proof.
  apply (rapid_triage_passes_any_truthy_value (engine := example_engine)
           (analysis := resolving (text_response "ok"))
           (stored rapid_triage generative_design
              (mkStepResult json (VObj [("generated_smiles", VStr "CCN")]) None) [])
           (mkStepResult json (VObj [("generated_smiles", VStr "CCN")]) None) (VStr "CCN"));
    reflexivity.
Defined.

(** X5 on triage results with an entry and a [null]. *)
Lemma null_triage_entry_fails_witness :
  fails_with (engine := example_engine) (analysis := resolving (text_response "ok"))
    (triaged md_simulation [candidate "A" 5.0%float; VNull])
    (error_text (engine := example_engine) (TypeError VNull "pIC50")).
Proof.
  apply (null_triage_entry_fails (engine := example_engine)
           (analysis := resolving (text_response "ok"))
           (triaged md_simulation [candidate "A" 5.0%float; VNull])
           (json_result "triage_results" 0) 0%nat [candidate "A" 5.0%float; VNull]);
    [reflexivity | reflexivity | reflexivity | reflexivity | reflexivity
    | intros z [<- | [<- | []]]; reflexivity
    | right; left; reflexivity
    | simpl; lia].
Defined.

(** X6 on four entries: three values are passed. *)
Lemma docking_passes_up_to_three_witness :
  exists topSmiles passed s1 p,
    begin (engine := example_engine) (triaged docking_rescoring four_entries) = (s1, Some p) /\
    request p = runDocking (VArr topSmiles) "4HER" /\
    heap s1 !! topSmiles = Some passed /\
    length passed = Nat.min 3 (length four_entries) /\
    (forall v, In v passed -> exists x, In x four_entries /\ v = field "smiles" x) /\
    error s1 = None /\
    snd (handleStepExecution (engine := example_engine)
           (analysis := resolving (text_response "ok"))
           (triaged docking_rescoring four_entries))
      = [request p].
Proof.
  apply (docking_passes_up_to_three (engine := example_engine)
           (analysis := resolving (text_response "ok"))
           (triaged docking_rescoring four_entries)
           (json_result "triage_results" 0) 0%nat four_entries);
    [reflexivity | reflexivity | reflexivity | reflexivity | reflexivity | discriminate
    | vm_compute; reflexivity].
Defined.

(** X7 on the example of the specification, for the first and the last of
    the five steps. *)
Lemma single_candidate_steps_agree_witness :
  match
    fst (resolve (engine := example_engine)
           (setActiveStep md_simulation (triaged md_simulation example_triage))
           [example_triage]),
    fst (resolve (engine := example_engine)
           (setActiveStep final_report (triaged md_simulation example_triage))
           [example_triage])
  with
  | Normal req1, Normal req2 =>
    exists v, top_argument req1 = Some v /\ top_argument req2 = Some v /\ truthy v = true
  | Throw e1, Throw e2 => e1 = e2
  | _, _ => False
  end /\
  snd (resolve (engine := example_engine)
         (setActiveStep md_simulation (triaged md_simulation example_triage))
         [example_triage])
  = snd (resolve (engine := example_engine)
           (setActiveStep final_report (triaged md_simulation example_triage))
           [example_triage]).
Proof.
  apply (single_candidate_steps_agree (engine := example_engine)
           (triaged md_simulation example_triage) [example_triage]
           md_simulation final_report);
    reflexivity.
Defined.

(** X8 on a service that returns two generated molecules. *)
Lemma generated_molecules_reach_triage_witness :
  activeStep (fst (handleStepExecution (engine := example_engine)
                     (analysis := resolving_with (json_result "generated_smiles" 0)
                                    [[VStr "CCN"; VStr "CCCl"]])
                     (setActiveStep generative_design initial)))
    = rapid_triage /\
  snd (handleStepExecution (engine := example_engine)
         (analysis := resolving_with (json_result "generated_smiles" 0)
                        [[VStr "CCN"; VStr "CCCl"]])
         (fst (handleStepExecution (engine := example_engine)
                 (analysis := resolving_with (json_result "generated_smiles" 0)
                                [[VStr "CCN"; VStr "CCCl"]])
                 (setActiveStep generative_design initial))))
    = [triageCandidates (VArr 0)].
Proof.
  apply (generated_molecules_reach_triage (engine := example_engine)
           (analysis := resolving_with (json_result "generated_smiles" 0)
                          [[VStr "CCN"; VStr "CCCl"]])
           (setActiveStep generative_design initial)
           (fst (begin (engine := example_engine) (setActiveStep generative_design initial)))
           (mkPending (generateCandidates "CCO") generative_design 2)
           (json_result "generated_smiles" 0) [[VStr "CCN"; VStr "CCCl"]] (VArr 0));
    reflexivity.
Defined.

(** X9 on a service that returns the triage results of the specification's
    example. *)
Lemma triage_results_reach_docking_witness :
  activeStep (fst (handleStepExecution (engine := example_engine)
                     (analysis := resolving_with (json_result "triage_results" 1)
                                    [example_triage])
                     (stored rapid_triage generative_design
                        (json_result "generated_smiles" 0) [[VStr "CCN"; VStr "CCCl"]])))
    = docking_rescoring /\
  exists topSmiles passed s2 p2,
    begin (engine := example_engine)
      (fst (handleStepExecution (engine := example_engine)
              (analysis := resolving_with (json_result "triage_results" 1) [example_triage])
              (stored rapid_triage generative_design
                 (json_result "generated_smiles" 0) [[VStr "CCN"; VStr "CCCl"]])))
      = (s2, Some p2) /\
    snd (handleStepExecution (engine := example_engine)
           (analysis := resolving_with (json_result "triage_results" 1) [example_triage])
           (fst (handleStepExecution (engine := example_engine)
                   (analysis := resolving_with (json_result "triage_results" 1)
                                  [example_triage])
                   (stored rapid_triage generative_design
                      (json_result "generated_smiles" 0) [[VStr "CCN"; VStr "CCCl"]]))))
      = [request p2] /\
    request p2 = runDocking (VArr topSmiles) "4HER" /\
    heap s2 !! topSmiles = Some passed /\
    length passed = Nat.min 3 (length example_triage) /\
    (forall v, In v passed -> exists x, In x example_triage /\ v = field "smiles" x).
Proof.
  apply (triage_results_reach_docking (engine := example_engine)
           (analysis := resolving_with (json_result "triage_results" 1) [example_triage])
           (stored rapid_triage generative_design
              (json_result "generated_smiles" 0) [[VStr "CCN"; VStr "CCCl"]])
           (fst (begin (engine := example_engine)
                   (stored rapid_triage generative_design
                      (json_result "generated_smiles" 0) [[VStr "CCN"; VStr "CCCl"]])))
           (mkPending (triageCandidates (VArr 0)) rapid_triage 3)
           (json_result "triage_results" 1) [example_triage] 1%nat example_triage);
    [reflexivity | reflexivity | reflexivity | reflexivity | reflexivity | reflexivity
    | discriminate | vm_compute; reflexivity].
Defined.

(** X13 on the first step. *)
Lemma receptor_matters_to_docking_only_witness :
  handleStepExecution (engine := example_engine)
    (analysis := resolving (text_response "ok")) (setReceptorPdbId "1ABC" initial)
  = (setReceptorPdbId "1ABC"
       (fst (handleStepExecution (engine := example_engine)
               (analysis := resolving (text_response "ok")) initial)),
     snd (handleStepExecution (engine := example_engine)
            (analysis := resolving (text_response "ok")) initial)).
Proof.
  apply (receptor_matters_to_docking_only (engine := example_engine)
           (analysis := resolving (text_response "ok")) initial "1ABC").
  discriminate.
Defined.

(** X14 on the step after docking. *)
Lemma smiles_do_not_matter_between_witness :
  handleStepExecution (engine := example_engine)
    (analysis := resolving (text_response "ok"))
    (setMoleculeSmiles "CCC" (triaged md_simulation example_triage))
  = (setMoleculeSmiles "CCC"
       (fst (handleStepExecution (engine := example_engine)
               (analysis := resolving (text_response "ok"))
               (triaged md_simulation example_triage))),
     snd (handleStepExecution (engine := example_engine)
            (analysis := resolving (text_response "ok"))
            (triaged md_simulation example_triage))).
Proof.
  apply (smiles_do_not_matter_between (engine := example_engine)
           (analysis := resolving (text_response "ok"))
           (triaged md_simulation example_triage) "CCC").
  simpl. tauto.
Defined.

(** X15 on the first call, the user having clicked the last step meanwhile:
    the response brings the user to the second step. *)
Lemma late_settlement_applies_to_the_started_step_witness :
  next_step data_assembly
    (activeStep (settle (engine := example_engine)
                   (mkPending (analyzeDataAssembly "CCO") data_assembly 0)
                   (Resolved (text_response "ok") [])
                   (handleStepClick final_report in_flight))).
Proof.
  apply (proj1 (late_settlement_applies_to_the_started_step (engine := example_engine)
                  initial in_flight
                  (mkPending (analyzeDataAssembly "CCO") data_assembly 0) final_report
                  eq_refl)
           (text_response "ok") []).
  discriminate.
Defined.

(** X16 on the first run. *)
Lemma the_card_moves_on_after_success_witness :
  exists c,
    card (fst (handleStepExecution (engine := example_engine)
                 (analysis := resolving (text_response "ok")) initial)) = Some c /\
    next_step data_assembly (PipelineStep.id (StepCard.step c)) /\
    StepCard.result c = results initial (PipelineStep.id (StepCard.step c)) /\
    StepCard.isLoading c = false /\
    StepCard.error c = None.
Proof.
  apply (the_card_moves_on_after_success (engine := example_engine)
           (analysis := resolving (text_response "ok")) initial in_flight
           (mkPending (analyzeDataAssembly "CCO") data_assembly 0)
           (text_response "ok") []);
    [reflexivity | reflexivity | discriminate].
Defined.

(** X18 on a run whose call is rejected after a click. *)
Lemma no_call_in_flight_no_spinner_witness :
  isLoading
    (current (play (engine := example_engine)
                [executed; clicked rapid_triage; settled 0 (Rejected None)] mounted))
    = false.
Proof.
  apply (no_call_in_flight_no_spinner (engine := example_engine)
           [executed; clicked rapid_triage; settled 0 (Rejected None)]).
  reflexivity.
Defined.

(** X19 on two starts from the initial state. *)
Lemma the_flag_is_cleared_by_the_first_settlement_witness :
  awaiting (play (engine := example_engine)
              [executed; executed; settled 0 (Rejected None)] (mkSession initial []))
    = [mkPending (analyzeDataAssembly "CCO") data_assembly 0] /\
  isLoading (current (play (engine := example_engine)
                        [executed; executed; settled 0 (Rejected None)]
                        (mkSession initial [])))
    = false.
Proof.
  apply (the_flag_is_cleared_by_the_first_settlement (engine := example_engine)
           initial in_flight (fst (begin (engine := example_engine) in_flight))
           (mkPending (analyzeDataAssembly "CCO") data_assembly 0)
           (mkPending (analyzeDataAssembly "CCO") data_assembly 0)
           (Rejected None));
    reflexivity.
Defined.

(** X4 on a run from the initial state whose call is resolved. *)
Lemma error_after_a_run_witness :
  error (fst (handleStepExecution (engine := example_engine)
                (analysis := resolving (text_response "ok")) initial)) = None.
Proof.
  apply (proj1 (proj2 (error_after_a_run (engine := example_engine)
                         (analysis := resolving (text_response "ok")) initial))
           in_flight (mkPending (analyzeDataAssembly "CCO") data_assembly 0)
           (text_response "ok") []);
    reflexivity.
Defined.
